(** * Panoramix: negotiation, consensus authorization and the endpoint cycle

    A shallow embedding of [panoramix/functions.py].  Request payloads are
    Python dictionaries decoded from JSON, so they are modelled by a small
    dynamic [value] type whose dictionaries are finite maps; database rows
    are records kept in an explicit store that every handler threads
    through; a Python exception is a [Raise] result that carries the store
    as it was when the exception left the function.

    Embedded: [validate_operation], [require_by_consensus], the permission
    checks, the negotiation engine ([contribute_to_negotiation] down to
    [mk_signings]), the consensus authorizer ([handle_consensus] and its
    checks), the endpoint cycle ([apply_transition], [close_endpoint],
    [record_endpoint_process], [compute_messages_hash]), message admission
    ([MessageView]), [EndpointView.partial_update_logic] and the creation
    logic of [ContributionView], [PeerView] and [EndpointView].  The codec,
    the digests and the signature backend are parameters, and so is what the
    creation views call in [panoramix.models]; the rest of
    [panoramix.models] is not part of the sources and is modelled from the
    spec where it is used.  Left out: [generate_random_key] and
    [NegotiationView] (random bytes), and the [retrieve] and [list] methods
    (they delegate to the framework). *)

From Stdlib Require Import Strings.String Strings.Ascii ZArith Lia.
From stdpp Require Import gmap strings list fin_maps sorting.

#[local] Set Warnings "-register-all".
#[local] Open Scope Z_scope.

(** ** Python values *)

(** A decoded JSON document, as [request.data] and [canonical.from_canonical]
    hand it to the code. *)
Inductive value : Type :=
| VNone
| VBool (b : bool)
| VInt (z : Z)
| VStr (s : string)
| VList (l : list value)
| VDict (d : gmap string value).

(** The exceptions the module raises, and the ones the Python runtime raises
    on its behalf.  [ValidationError] and [PermissionDenied] are the REST
    framework's; [Http404] is Django's. *)
Inductive exn : Type :=
| ValidationError (msg : string)
| PermissionDenied (msg : string)
| Http404
| KeyError (key : string)
| AttributeError
| TypeError
| UnboundLocalError (var : string)
| AssertionError
| MultipleObjectsReturned
| CanonicalError.

Inductive result (A : Type) : Type :=
| Ok (a : A)
| Raise (e : exn).
Arguments Ok {A} a.
Arguments Raise {A} e.

#[global] Instance result_ret : MRet result := λ A, Ok.
#[global] Instance result_bind : MBind result := λ A B f m,
  match m with Ok a => f a | Raise e => Raise e end.

#[global] Instance result_fmap : FMap result := λ A B f m,
  match m with Ok a => Ok (f a) | Raise e => Raise e end.

Definition is_ok {A} (r : result A) : bool :=
  match r with Ok _ => true | Raise _ => false end.

(** [if v:] *)
Definition truthy (v : value) : bool :=
  match v with
  | VNone => false
  | VBool b => b
  | VInt z => negb (z =? 0)
  | VStr s => negb (String.eqb s "")
  | VList l => match l with [] => false | _ => true end
  | VDict d => negb (Nat.eqb (size d) 0)
  end.

(** [v is None] *)
Definition is_None (v : value) : bool :=
  match v with VNone => true | _ => false end.

(** [v == s] for a string [s]: only an equal string is equal to a string. *)
Definition eq_str (v : value) (s : string) : bool :=
  match v with VStr s' => String.eqb s' s | _ => false end.

(** [d.get(k, default)]; anything but a dictionary has no [get]. *)
Definition dict_get (d : value) (k : string) (dflt : value) : result value :=
  match d with
  | VDict m => Ok (default dflt (m !! k))
  | _ => Raise AttributeError
  end.

(** [d[k]] for a string key. *)
Definition subscript (d : value) (k : string) : result value :=
  match d with
  | VDict m => match m !! k with Some v => Ok v | None => Raise (KeyError k) end
  | _ => Raise TypeError
  end.

(** [for x in v]: a list yields its elements, a string its characters, a
    dictionary its keys; nothing else is iterable. *)
Fixpoint chars (s : string) : list value :=
  match s with
  | EmptyString => []
  | String c s' => VStr (String c EmptyString) :: chars s'
  end.

Definition py_iter (v : value) : result (list value) :=
  match v with
  | VList l => Ok l
  | VStr s => Ok (chars s)
  | VDict d => Ok (VStr <$> (map_to_list d).*1)
  | _ => Raise TypeError
  end.

(** A value handed to [hashlib], to the signature backend or to a text
    column has to be a string. *)
Definition as_str (v : value) : result string :=
  match v with VStr s => Ok s | _ => Raise TypeError end.

(** The strings of a list of values, when all of them are strings. *)
Fixpoint strings_of (l : list value) : option (list string) :=
  match l with
  | [] => Some []
  | VStr s :: l' => cons s <$> strings_of l'
  | _ :: _ => None
  end.

(** [sorted] on strings: Python compares them code point by code point,
    which is [String.leb]. *)
Definition str_le (a b : string) : Prop := String.leb a b = true.

#[global] Instance str_le_dec a b : Decision (str_le a b).
Proof. unfold str_le. apply _. Defined.

Definition sorted (l : list string) : list string := merge_sort str_le l.

(** ** External collaborators *)

(** [panoramix.canonical] and [utils.from_unicode]: the canonical codec. *)
Class CanonicalCodec := {
  to_canonical : value → string;
  from_canonical : string → result value;
  from_unicode : string → string;
}.

(** [hashlib.sha256] (as a function from the bytes fed to the hasher to the
    hex digest) and [utils.hash_string]. *)
Class Hashing := {
  sha256_hexdigest : string → string;
  hash_string : string → string;
}.

(** [backend.verify(data, signature, public)]: validity and the identity of
    the signer. *)
Class SignatureVerifier := {
  backend_verify : string → string → option string → bool * string;
}.

(** ** Request validation *)

Definition validate_operation (info : value) (operation resource : string)
  : result unit :=
  actual_operation ← dict_get info "operation" VNone;
  actual_resource ← dict_get info "resource" VNone;
  if negb (eq_str actual_operation operation)
  then Raise (ValidationError ("Operation is not " +:+ operation +:+ "."))
  else if negb (eq_str actual_resource resource)
  then Raise (ValidationError ("Resource is not " +:+ resource +:+ "."))
  else Ok ().

Section Consensus_request.
Context `{CanonicalCodec}.

Definition get_requested_consensus_body (request_data : value) : result string :=
  data ← dict_get request_data "data" VNone;
  info ← dict_get request_data "info" VNone;
  Ok (to_canonical (VDict (<["data" := data]> (<["info" := info]> ∅)))).

Definition T_STRUCTURAL : string := "structural".

(** The local [consensus_body] is assigned in one branch only; reading it
    on the other one is Python's [UnboundLocalError]. *)
Definition require_by_consensus (request_data : value) : result (value * string) :=
  by_consensus ← dict_get request_data "by_consensus" (VDict ∅);
  if negb (truthy by_consensus)
  then Raise (PermissionDenied
                "Creating an endpoint without consensus is not allowed.")
  else
    consensus_id ← dict_get by_consensus "consensus_id" VNone;
    if is_None consensus_id
    then Raise (ValidationError "consensus is missing")
    else
      consensus_type ← dict_get by_consensus "consensus_type" VNone;
      if eq_str consensus_type T_STRUCTURAL
      then consensus_body ← get_requested_consensus_body request_data;
           Ok (consensus_id, consensus_body)
      else Raise (UnboundLocalError "consensus_body").

End Consensus_request.

(** ** Permission checks *)

(** [signings] is the signer-to-signature dictionary of a sealed consensus;
    its values are signatures, so [signings.get(owner) is None] means that
    the owner is not a key. *)
Fixpoint assert_signed_loop (owners : list string) (signings : gmap string string)
  : result unit :=
  match owners with
  | [] => Ok ()
  | owner :: rest =>
      match signings !! owner with
      | None => Raise (PermissionDenied (owner +:+ " has not signed"))
      | Some _ => assert_signed_loop rest signings
      end
  end.

Definition assert_consensus_signed (owners : list string)
    (signings : gmap string string) : result unit :=
  if Nat.eqb (size signings) 0
  then Raise (PermissionDenied "No signings found")
  else assert_signed_loop owners signings.

Definition check_permission (peer_id : string) (owners : list string)
    (signings : gmap string string) (request_peer_id : string) : result unit :=
  match owners with
  | _ :: _ =>
      if negb (bool_decide (request_peer_id ∈ owners))
      then Raise (PermissionDenied
                    ("request user " +:+ request_peer_id +:+ " is not a peer owner"))
      else assert_consensus_signed owners signings
  | [] =>
      if negb (String.eqb request_peer_id peer_id)
      then Raise (PermissionDenied
                    ("request user " +:+ request_peer_id +:+
                     " cannot operate on peer " +:+ peer_id))
      else assert_consensus_signed [request_peer_id] signings
  end.

(** ** The database *)

(** Modelled from the spec: the status constants of [panoramix.models]
    ([NegotiationStatus], [CycleStatus], [Box], [PeerStatus]) are not part of
    the sources; the spec's data model lists their members, and a member is
    taken to be written in a request as its name. *)
Inductive NegotiationStatus : Type := NEG_OPEN | NEG_DONE.
Inductive CycleStatus : Type := OPEN | FULL | CLOSED | PROCESSED.
Inductive Box : Type := INBOX | PROCESSBOX | ACCEPTED | OUTBOX.

#[global] Instance NegotiationStatus_eq_dec : EqDecision NegotiationStatus.
Proof. solve_decision. Defined.
#[global] Instance CycleStatus_eq_dec : EqDecision CycleStatus.
Proof. solve_decision. Defined.
#[global] Instance Box_eq_dec : EqDecision Box.
Proof. solve_decision. Defined.

Definition CycleStatus_name (s : CycleStatus) : string :=
  match s with
  | OPEN => "OPEN" | FULL => "FULL" | CLOSED => "CLOSED" | PROCESSED => "PROCESSED"
  end.

Definition Box_name (b : Box) : string :=
  match b with
  | INBOX => "INBOX" | PROCESSBOX => "PROCESSBOX"
  | ACCEPTED => "ACCEPTED" | OUTBOX => "OUTBOX"
  end.

Definition PeerStatus_READY : string := "READY".

(** A [datetime], known by its ISO-8601 text. *)
Record datetime : Type := { isoformat : string }.

(** Modelled from the spec: the rows of [panoramix.models], with the fields
    the spec's data model gives them. *)
Record Negotiation : Type := {
  n_id : string;
  n_status : NegotiationStatus;
  n_text : option string;
  n_timestamp : option datetime;
  n_consensus : option string;
}.

Record Contribution : Type := {
  c_negotiation : string;
  c_text : string;
  c_signer_key_id : string;
  c_signature : string;
  c_latest : bool;
}.

Record Signing : Type := {
  s_negotiation : string;
  s_signer_key_id : string;
  s_signature : string;
}.

Record Peer : Type := {
  p_peer_id : string;
  p_status : string;
}.

Record Owner : Type := {
  o_peer_id : string;
  o_owner_key_id : string;
}.

Record Endpoint : Type := {
  e_endpoint_id : string;
  e_peer_id : string;
  e_status : CycleStatus;
  e_size_min : Z;
  e_size_max : Z;
  e_inbox_hash : option string;
  e_outbox_hash : option string;
  e_process_proof : value;
  e_last_consensus_id : option string;
}.

Record Message : Type := {
  m_sender : string;
  m_recipient : string;
  m_text : string;
  m_message_hash : string;
  m_endpoint_id : string;
  m_box : Box;
}.

(** Tables with a primary key are maps from the key; the others are lists
    of rows in insertion order. *)
Record DB : Type := {
  negotiations : gmap string Negotiation;
  contributions : list Contribution;
  signings : list Signing;
  peers : gmap string Peer;
  owners : list Owner;
  endpoints : gmap string Endpoint;
  messages : list Message;
}.

Definition empty_db : DB :=
  {| negotiations := ∅; contributions := []; signings := []; peers := ∅;
     owners := []; endpoints := ∅; messages := [] |}.

Definition set_negotiations (f : gmap string Negotiation → gmap string Negotiation)
    (db : DB) : DB :=
  {| negotiations := f (negotiations db); contributions := contributions db;
     signings := signings db; peers := peers db; owners := owners db;
     endpoints := endpoints db; messages := messages db |}.

Definition set_contributions (f : list Contribution → list Contribution)
    (db : DB) : DB :=
  {| negotiations := negotiations db; contributions := f (contributions db);
     signings := signings db; peers := peers db; owners := owners db;
     endpoints := endpoints db; messages := messages db |}.

Definition set_signings (f : list Signing → list Signing) (db : DB) : DB :=
  {| negotiations := negotiations db; contributions := contributions db;
     signings := f (signings db); peers := peers db; owners := owners db;
     endpoints := endpoints db; messages := messages db |}.

Definition set_endpoints (f : gmap string Endpoint → gmap string Endpoint)
    (db : DB) : DB :=
  {| negotiations := negotiations db; contributions := contributions db;
     signings := signings db; peers := peers db; owners := owners db;
     endpoints := f (endpoints db); messages := messages db |}.

Definition set_messages (f : list Message → list Message) (db : DB) : DB :=
  {| negotiations := negotiations db; contributions := contributions db;
     signings := signings db; peers := peers db; owners := owners db;
     endpoints := endpoints db; messages := f (messages db) |}.

(** ** Handlers: a state monad with exceptions *)

(** A handler reads and writes the database and may raise; the store that
    comes with a [Raise] shows what had been written before the exception. *)
Definition M (A : Type) : Type := DB → result A * DB.

#[global] Instance M_ret : MRet M := λ A a db, (Ok a, db).
#[global] Instance M_bind : MBind M := λ A B f m db,
  match m db with
  | (Ok a, db') => f a db'
  | (Raise e, db') => (Raise e, db')
  end.

Definition raise {A} (e : exn) : M A := λ db, (Raise e, db).
Definition lift {A} (r : result A) : M A := λ db, (r, db).
Definition query {A} (f : DB → A) : M A := λ db, (Ok (f db), db).
Definition write (f : DB → DB) : M unit := λ db, (Ok (), f db).

(** [get_instance(model, {key: k})] on a table with a primary key. *)
Definition get_instance {A} (table : DB → gmap string A) (k : value) : M A :=
  λ db,
    match k with
    | VStr s => match table db !! s with
                | Some row => (Ok row, db)
                | None => (Raise Http404, db)
                end
    | _ => (Raise Http404, db)
    end.

(** ** Message and commitment hashes *)

(** A [hashlib] hasher: the digest is a function of all the bytes fed to it,
    in the order of the [update] calls. *)
Record hasher : Type := { fed : string }.

Definition hashlib_sha256 : hasher := {| fed := "" |}.
Definition update (h : hasher) (s : string) : hasher := {| fed := fed h +:+ s |}.

Section Hashes.
Context `{Hashing}.

Definition hexdigest (h : hasher) : string := sha256_hexdigest (fed h).

Definition hash_message (text sender recipient : string) : string :=
  let hasher := hashlib_sha256 in
  let hasher := update hasher text in
  let hasher := update hasher sender in
  let hasher := update hasher recipient in
  hexdigest hasher.

(** [sorted(set(msg_hashes))]: the distinct hashes in increasing order. *)
Definition compute_messages_hash (msg_hashes : list string) : string :=
  let sorted_hashes := sorted (remove_dups msg_hashes) in
  hexdigest (foldl update hashlib_sha256 sorted_hashes).

(** ** The endpoint cycle *)

(** [[d["hash"] for d in data.get("message_hashes", [])]].  A message hash
    is a string.  Another value in its place is refused here with
    [TypeError]; the code refuses it later, at the count comparison or in
    [hashlib], and so possibly with another exception, but in every case
    before the first write.  The theorems on the transitions are about
    lists of strings. *)
Definition requested_hashes (data : value) : result (list string) :=
  message_hashes ← dict_get data "message_hashes" (VList []);
  entries ← py_iter message_hashes;
  mapM (λ d, subscript d "hash" ≫= as_str) entries.

(** The rows of
    [Message.objects.filter(message_hash__in=hashes, endpoint_id=id, box=b)]. *)
Definition in_queryset (hashes : list string) (endpoint_id : string) (box : Box)
    (m : Message) : Prop :=
  m_message_hash m ∈ hashes ∧ m_endpoint_id m = endpoint_id ∧ m_box m = box.

#[global] Instance in_queryset_dec hashes endpoint_id box m :
  Decision (in_queryset hashes endpoint_id box m).
Proof. unfold in_queryset. apply _. Defined.

Definition queryset_count (hashes : list string) (endpoint_id : string)
    (box : Box) : M Z :=
  query (λ db, Z.of_nat (length (filter (in_queryset hashes endpoint_id box)
                                        (messages db)))).

Definition move_to (box : Box) (m : Message) : Message :=
  {| m_sender := m_sender m; m_recipient := m_recipient m; m_text := m_text m;
     m_message_hash := m_message_hash m; m_endpoint_id := m_endpoint_id m;
     m_box := box |}.

Definition queryset_update (hashes : list string) (endpoint_id : string)
    (box new_box : Box) : M unit :=
  write (set_messages (fmap (λ m,
    if decide (in_queryset hashes endpoint_id box m) then move_to new_box m
    else m))).

(** [endpoint.save()] *)
Definition save_endpoint (endpoint : Endpoint) : M unit :=
  write (set_endpoints (<[e_endpoint_id endpoint := endpoint]>)).

Definition closed_with (inbox_hash : string) (e : Endpoint) : Endpoint :=
  {| e_endpoint_id := e_endpoint_id e; e_peer_id := e_peer_id e;
     e_status := CLOSED; e_size_min := e_size_min e; e_size_max := e_size_max e;
     e_inbox_hash := Some inbox_hash; e_outbox_hash := e_outbox_hash e;
     e_process_proof := e_process_proof e;
     e_last_consensus_id := e_last_consensus_id e |}.

Definition processed_with (process_proof : value) (outbox_hash : string)
    (e : Endpoint) : Endpoint :=
  {| e_endpoint_id := e_endpoint_id e; e_peer_id := e_peer_id e;
     e_status := PROCESSED; e_size_min := e_size_min e;
     e_size_max := e_size_max e; e_inbox_hash := e_inbox_hash e;
     e_outbox_hash := Some outbox_hash; e_process_proof := process_proof;
     e_last_consensus_id := e_last_consensus_id e |}.

Definition close_endpoint (endpoint : Endpoint) (data : value) : M Endpoint :=
  let current_status := e_status endpoint in
  if negb (bool_decide (current_status ∈ [OPEN; FULL]))
  then raise (PermissionDenied "wrong current state")
  else
    message_hashes ← lift (requested_hashes data);
    let message_hashes_count := Z.of_nat (length message_hashes) in
    inbox_count ← queryset_count message_hashes (e_endpoint_id endpoint) INBOX;
    if negb (message_hashes_count =? inbox_count)
    then raise (PermissionDenied "message count mismatch")
    else if inbox_count <? e_size_min endpoint
    then raise (PermissionDenied "Didn't reach min size")
    else if inbox_count >? e_size_max endpoint
    then raise (PermissionDenied "Too many messages")
    else
      let inbox_hash := compute_messages_hash message_hashes in
      let endpoint' := closed_with inbox_hash endpoint in
      save_endpoint endpoint';;
      queryset_update message_hashes (e_endpoint_id endpoint) INBOX ACCEPTED;;
      mret endpoint'.

Definition record_endpoint_process (endpoint : Endpoint) (data : value)
  : M Endpoint :=
  process_proof ← lift (dict_get data "process_proof" VNone);
  message_hashes ← lift (requested_hashes data);
  let message_hashes_count := Z.of_nat (length message_hashes) in
  count ← queryset_count message_hashes (e_endpoint_id endpoint) PROCESSBOX;
  if negb (message_hashes_count =? count)
  then raise (PermissionDenied "message count mismatch")
  else
    let outbox_hash := compute_messages_hash message_hashes in
    let endpoint' := processed_with process_proof outbox_hash endpoint in
    save_endpoint endpoint';;
    queryset_update message_hashes (e_endpoint_id endpoint) PROCESSBOX OUTBOX;;
    mret endpoint'.

(** The inbox messages of an endpoint, and those of them that a list of
    hashes resolves to (the query of [close_endpoint]). *)
Definition inbox_of (endpoint : Endpoint) (db : DB) : list Message :=
  filter (λ m, m_endpoint_id m = e_endpoint_id endpoint ∧ m_box m = INBOX)
         (messages db).

Definition resolved (hashes : list string) (endpoint : Endpoint) (db : DB)
  : list Message :=
  filter (in_queryset hashes (e_endpoint_id endpoint) INBOX) (messages db).

(** Modelled from the spec: [Endpoint.log_consensus] and
    [Endpoint.get_last_consensus_id] are methods of [panoramix.models]; the
    spec has every transition record the authorizing consensus id on the
    endpoint, as a pointer to the consensus of its last change.  A consensus
    id is a [hash_string] digest, hence a string. *)
Definition logged (consensus_id : string) (e : Endpoint) : Endpoint :=
  {| e_endpoint_id := e_endpoint_id e; e_peer_id := e_peer_id e;
     e_status := e_status e; e_size_min := e_size_min e;
     e_size_max := e_size_max e; e_inbox_hash := e_inbox_hash e;
     e_outbox_hash := e_outbox_hash e; e_process_proof := e_process_proof e;
     e_last_consensus_id := Some consensus_id |}.

(** Modelled from the spec: [Endpoint.log_consensus], which records the
    authorizing consensus id on the endpoint. *)
Definition log_consensus (endpoint : Endpoint) (consensus_id : value)
  : M Endpoint :=
  id ← lift (as_str consensus_id);
  save_endpoint (logged id endpoint);;
  mret (logged id endpoint).

(** Modelled from the spec: [Endpoint.get_last_consensus_id], the consensus
    id recorded by the last change, [None] when there is none. *)
Definition get_last_consensus_id (endpoint : Endpoint) : option string :=
  e_last_consensus_id endpoint.

Definition apply_transition (endpoint : Endpoint) (data consensus_id : value)
  : M Endpoint :=
  requested_status ← lift (dict_get data "status" VNone);
  endpoint' ←
    (if eq_str requested_status (CycleStatus_name CLOSED)
     then close_endpoint endpoint data
     else if eq_str requested_status (CycleStatus_name PROCESSED)
     then record_endpoint_process endpoint data
     else raise (ValidationError "invalid status"));
  log_consensus endpoint' consensus_id.

(** ** Message admission *)

(** The request as the views read it: [request.user.peer_id],
    [request.auth] and [request.data]. *)
Record Request : Type := {
  r_user_peer_id : string;
  r_auth : option string;
  r_data : value;
}.

Definition check_is_owner (endpoint : Endpoint) (request_user_id : string)
  : M bool :=
  let peer_id := e_peer_id endpoint in
  if String.eqb peer_id request_user_id
  then mret true
  else query (λ db, bool_decide
         (Exists (λ o, o_peer_id o = peer_id ∧ o_owner_key_id o = request_user_id)
                 (owners db))).

Definition check_cycle_is_open (endpoint : Endpoint) : result unit :=
  if negb (bool_decide (e_status endpoint = OPEN))
  then Raise (PermissionDenied
                ("Cycle " +:+ e_endpoint_id endpoint +:+ " is not open"))
  else Ok ().

Definition check_cycle_can_process (endpoint : Endpoint) : result unit :=
  if negb (bool_decide (e_status endpoint = CLOSED))
  then Raise (PermissionDenied
                ("Cycle " +:+ e_endpoint_id endpoint +:+ " is not closed"))
  else Ok ().

(** The [box] column holds one of the four box tags. *)
Definition box_of_value (v : value) : result Box :=
  if eq_str v (Box_name INBOX) then Ok INBOX
  else if eq_str v (Box_name PROCESSBOX) then Ok PROCESSBOX
  else if eq_str v (Box_name ACCEPTED) then Ok ACCEPTED
  else if eq_str v (Box_name OUTBOX) then Ok OUTBOX
  else Raise TypeError.

Definition MessageView_perform_create (data : value) : M Message :=
  box ← lift (dict_get data "box" VNone);
  endpoint_id ← lift (dict_get data "endpoint_id" VNone);
  text ← lift (dict_get data "text" VNone);
  sender ← lift (dict_get data "sender" VNone);
  recipient ← lift (dict_get data "recipient" VNone);
  text ← lift (as_str text);
  sender ← lift (as_str sender);
  recipient ← lift (as_str recipient);
  let computed_hash := hash_message text sender recipient in
  requested_hash ← lift (dict_get data "message_hash" VNone);
  if negb (is_None requested_hash) && negb (eq_str requested_hash computed_hash)
  then raise (ValidationError "hash mismatch")
  else
    endpoint_id ← lift (as_str endpoint_id);
    box ← lift (box_of_value box);
    let message :=
      {| m_sender := sender; m_recipient := recipient; m_text := text;
         m_message_hash := computed_hash; m_endpoint_id := endpoint_id;
         m_box := box |} in
    write (set_messages (λ ms, ms ++ [message]));;
    mret message.

(** The value of [check_is_owner] is computed and dropped. *)
Definition MessageView_creation_logic (request : Request) : M Message :=
  let request_data := r_data request in
  let request_user := r_user_peer_id request in
  data ← lift (dict_get request_data "data" (VDict ∅));
  info ← lift (dict_get request_data "info" (VDict ∅));
  lift (validate_operation info "create" "message");;
  endpoint_id ← lift (dict_get data "endpoint_id" VNone);
  box ← lift (dict_get data "box" VNone);
  endpoint ← get_instance endpoints endpoint_id;
  (if eq_str box (Box_name INBOX)
   then lift (check_cycle_is_open endpoint)
   else if eq_str box (Box_name PROCESSBOX)
   then lift (check_cycle_can_process endpoint);;
        check_is_owner endpoint request_user;;
        mret ()
   else raise (PermissionDenied "can't post to box"));;
  MessageView_perform_create data.

End Hashes.

(** ** The negotiation engine *)

Section Negotiations.
Context `{CanonicalCodec} `{Hashing} `{SignatureVerifier}.

(** Modelled from the spec: [Negotiation.get_latest_contributions] is a
    method of [panoramix.models]; closure evaluation collects the [latest]
    contribution of every signer of the negotiation. *)
Definition get_latest_contributions (negotiation : Negotiation)
  : M (list Contribution) :=
  query (λ db, filter (λ c, c_negotiation c = n_id negotiation ∧ c_latest c = true)
                      (contributions db)).

(** [texts = set(...); assert len(texts) == 1; return texts.pop()] *)
Definition get_text (contributions : list Contribution) : result string :=
  match remove_dups (c_text <$> contributions) with
  | [text] => Ok text
  | _ => Raise AssertionError
  end.

Definition signing_of (negotiation : Negotiation) (contribution : Contribution)
  : Signing :=
  {| s_negotiation := n_id negotiation;
     s_signer_key_id := c_signer_key_id contribution;
     s_signature := c_signature contribution |}.

(** The loop of [mk_signings]: one [Signing] appended and one dictionary
    entry written per contribution. *)
Definition mk_signings_loop (negotiation : Negotiation)
    (contributions : list Contribution) : list Signing * gmap string string :=
  foldl (λ acc contribution,
           (acc.1 ++ [signing_of negotiation contribution],
            <[c_signer_key_id contribution := c_signature contribution]> acc.2))
        ([], ∅) contributions.

(** The dictionary that the loop builds. *)
Definition signings_dict_of (contributions : list Contribution)
  : gmap string string :=
  foldl (λ d c, <[c_signer_key_id c := c_signature c]> d) ∅ contributions.

Definition mk_signings (negotiation : Negotiation)
    (contributions : list Contribution) : M (gmap string string) :=
  let (new_signings, signings_dict) := mk_signings_loop negotiation contributions in
  write (set_signings (λ rows, rows ++ new_signings));;
  mret signings_dict.

Definition hashable (now : datetime) (negotiation_id text : string)
    (signings_dict : gmap string string) : value :=
  VDict (<["timestamp" := VStr (isoformat now)]>
        (<["negotiation_id" := VStr negotiation_id]>
        (<["text" := VStr text]>
        (<["signings" := VDict (VStr <$> signings_dict)]> ∅)))).

Definition sealed (now : datetime) (text consensus : string)
    (n : Negotiation) : Negotiation :=
  {| n_id := n_id n; n_status := NEG_DONE; n_text := Some text;
     n_timestamp := Some now; n_consensus := Some consensus |}.

(** [now] is what [get_now()] returns when the negotiation is sealed. *)
Definition _close_negotiation (now : datetime) (negotiation : Negotiation)
    (contributions : list Contribution) : M Negotiation :=
  text ← lift (get_text contributions);
  signings_dict ← mk_signings negotiation contributions;
  let consensus :=
    hash_string (to_canonical (hashable now (n_id negotiation) text signings_dict)) in
  let negotiation' := sealed now text consensus negotiation in
  write (set_negotiations (<[n_id negotiation := negotiation']>));;
  mret negotiation'.

Definition check_close_negotiation (now : datetime) (negotiation : Negotiation)
  : M unit :=
  latests ← get_latest_contributions negotiation;
  match remove_dups (c_text <$> latests) with
  | [text] =>
      unpacked_text ← lift (from_canonical (from_unicode text));
      meta ← lift (dict_get unpacked_text "meta" (VDict ∅));
      accept ← lift (dict_get meta "accept" (VBool false));
      if truthy accept
      then _close_negotiation now negotiation latests;; mret ()
      else mret ()
  | _ => mret ()
  end.

Definition superseded (c : Contribution) : Contribution :=
  {| c_negotiation := c_negotiation c; c_text := c_text c;
     c_signer_key_id := c_signer_key_id c; c_signature := c_signature c;
     c_latest := false |}.

(** [negotiation.contributions.filter(signer_key_id=key_id).update(latest=False)] *)
Definition clear_latest (negotiation_id key_id : string)
    (rows : list Contribution) : list Contribution :=
  (λ c, if decide (c_negotiation c = negotiation_id ∧ c_signer_key_id c = key_id)
        then superseded c else c) <$> rows.

(** The text and the signature go to the verifier and into text columns:
    they are strings. *)
Definition contribute_to_negotiation (now : datetime) (negotiation : Negotiation)
    (request : value) (key_data : option string) : M Contribution :=
  if negb (bool_decide (n_status negotiation = NEG_OPEN))
  then raise (ValidationError "neg is not open")
  else
    text ← lift (subscript request "text");
    signature ← lift (subscript request "signature");
    signer_key_id ← lift (subscript request "signer_key_id");
    text ← lift (as_str text);
    signature ← lift (as_str signature);
    let (valid, key_id) := backend_verify text signature key_data in
    if negb valid
    then raise (PermissionDenied "contribution's signature is not valid")
    else if negb (eq_str signer_key_id key_id)
    then raise (PermissionDenied "signer_key_id mismatch")
    else
      write (set_contributions (clear_latest (n_id negotiation) key_id));;
      let contrib :=
        {| c_negotiation := n_id negotiation; c_text := text;
           c_signer_key_id := key_id; c_signature := signature;
           c_latest := true |} in
      write (set_contributions (λ rows, rows ++ [contrib]));;
      check_close_negotiation now negotiation;;
      mret contrib.

(** At most one contribution of a signer to a negotiation is [latest]. *)
Definition is_latest_of (negotiation_id signer : string) (c : Contribution)
  : Prop :=
  c_negotiation c = negotiation_id ∧ c_signer_key_id c = signer ∧
  c_latest c = true.

Definition latest_unique (db : DB) : Prop :=
  ∀ negotiation_id signer,
    (length (filter (is_latest_of negotiation_id signer) (contributions db))
     ≤ 1)%nat.

(** The databases that a sequence of contributions builds from the empty
    one. *)
Inductive contributed : DB → Prop :=
| contributed_nothing : contributed empty_db
| contributed_more now negotiation request key_data db :
    contributed db →
    contributed (contribute_to_negotiation now negotiation request key_data db).2.

(** ** The consensus authorizer *)

(** Modelled from the spec: [Negotiation.to_consensus_dict] is a method of
    [panoramix.models]; the authorizer reads from it the frozen text and the
    signer-to-signature mapping of the negotiation's signings. *)
Record consensus_dict : Type := {
  consensus_text : option string;
  consensus_signings : gmap string string;
}.

(** Modelled from the spec: [Negotiation.to_consensus_dict], with the
    sealed text and one dictionary entry per [Signing] row of the
    negotiation. *)
Definition to_consensus_dict (n : Negotiation) (db : DB) : consensus_dict :=
  {| consensus_text := n_text n;
     consensus_signings :=
       foldl (λ d s, <[s_signer_key_id s := s_signature s]> d) ∅
             (filter (λ s, s_negotiation s = n_id n) (signings db)) |}.

Definition has_consensus (consensus_id : value) (n : Negotiation) : Prop :=
  match n_consensus n with
  | Some c => eq_str consensus_id c = true
  | None => False
  end.

#[global] Instance has_consensus_dec consensus_id n :
  Decision (has_consensus consensus_id n).
Proof. unfold has_consensus. destruct (n_consensus n); apply _. Defined.

(** [get_instance(models.Negotiation, {'consensus': consensus_id})].  The
    views call it with the id that [require_by_consensus] returned, which is
    not [None]; an id that is not a string finds no negotiation here (the
    query of the code with [None] would look for negotiations without a
    consensus), and the theorems are stated for string ids. *)
Definition retrieve_consensus (consensus_id : value) : M consensus_dict :=
  λ db,
    match filter (has_consensus consensus_id) (map_to_list (negotiations db)).*2 with
    | [] => (Raise Http404, db)
    | [n] => (Ok (to_consensus_dict n db), db)
    | _ => (Raise MultipleObjectsReturned, db)
    end.

Definition get_body_and_meta (consensus : consensus_dict) : result (string * value) :=
  consensus_text ← match consensus_text consensus with
                   | Some t => Ok t
                   | None => Raise TypeError
                   end;
  unpacked_text ← from_canonical (from_unicode consensus_text);
  body ← dict_get unpacked_text "body" (VDict ∅);
  let canonical_body := to_canonical body in
  meta ← dict_get unpacked_text "meta" (VDict ∅);
  Ok (canonical_body, meta).

(** [sorted(signers) != sorted(signings.keys())].  The keys are strings,
    and sorting keeps the elements of a list: a [signers] with an element
    that is not a string differs from the keys however it is sorted. *)
Definition check_all_signed (signings : gmap string string) (meta : value)
  : result unit :=
  signers ← dict_get meta "signers" (VList []);
  let actual_signers := (map_to_list signings).*1 in
  if truthy signers
  then
    elements ← py_iter signers;
    match strings_of elements with
    | Some names =>
        if negb (bool_decide (sorted names = sorted actual_signers))
        then Raise (ValidationError "no proper set of signatures")
        else Ok ()
    | None => Raise (ValidationError "no proper set of signatures")
    end
  else Ok ().

Definition check_bodies_equal (expected_body consensus_body : string)
  : result unit :=
  if negb (String.eqb expected_body consensus_body)
  then Raise (ValidationError "different consensus texts")
  else Ok ().

Definition check_accepted (meta : value) : result unit :=
  accept ← dict_get meta "accept" (VBool false);
  if negb (truthy accept)
  then Raise (ValidationError "not an accepted text")
  else Ok ().

Definition handle_consensus (expected_body : string) (consensus_id : value)
  : M (gmap string string) :=
  consensus ← retrieve_consensus consensus_id;
  let signings := consensus_signings consensus in
  '(body, meta) ← lift (get_body_and_meta consensus);
  lift (check_bodies_equal expected_body body);;
  lift (check_accepted meta);;
  lift (check_all_signed signings meta);;
  mret signings.

(** ** Endpoint transitions by consensus *)

(** Modelled from the spec: [Peer.list_owners] is a method of
    [panoramix.models]; a peer has a list of owner identities. *)
Definition list_owners (peer : Peer) : M (list string) :=
  query (λ db, o_owner_key_id <$>
                 filter (λ o, o_peer_id o = p_peer_id peer) (owners db)).

(** [info.on_last_consensus_id] of a request, when the request has one. *)
Definition on_last_consensus_id_of (request : Request) : option value :=
  match r_data request with
  | VDict request_data =>
      match request_data !! "info" with
      | Some (VDict info) => info !! "on_last_consensus_id"
      | _ => None
      end
  | _ => None
  end.

Definition EndpointView_partial_update_logic (request : Request)
    (endpoint : Endpoint) : M Endpoint :=
  let request_user := r_user_peer_id request in
  let request_data := r_data request in
  data ← lift (dict_get request_data "data" (VDict ∅));
  info ← lift (dict_get request_data "info" (VDict ∅));
  lift (validate_operation info "partial_update" "endpoint");;
  '(consensus_id, consensus_body) ← lift (require_by_consensus request_data);
  on_last_consensus_id ← lift (dict_get info "on_last_consensus_id" VNone);
  if is_None on_last_consensus_id
  then raise (PermissionDenied
         "cannot update endpoint without reference to last consensus id")
  else
    endpoint_id ← lift (subscript info "id");
    if negb (eq_str endpoint_id (e_endpoint_id endpoint))
    then raise (PermissionDenied "endpoint_id mismatch")
    else
      let last_consensus_id := get_last_consensus_id endpoint in
      if negb (match last_consensus_id with
               | Some id => eq_str on_last_consensus_id id
               | None => false
               end)
      then raise (PermissionDenied "condition on consensus_id failed")
      else
        signings ← handle_consensus consensus_body consensus_id;
        let peer_id := e_peer_id endpoint in
        peer ← get_instance peers (VStr peer_id);
        if negb (String.eqb (p_status peer) PeerStatus_READY)
        then raise (PermissionDenied "peer is not in state READY")
        else
          owners ← list_owners peer;
          lift (check_permission peer_id owners signings request_user);;
          apply_transition endpoint data consensus_id.

End Negotiations.

(** ** Stand-ins for the collaborators *)

(** The theorems below hold for every codec, digest and verifier.  To run
    the model on a concrete request one of each has to be chosen; these are
    small ones that keep the outcome readable.  They stand for no real
    algorithm. *)
Module Sample.

Definition hashing : Hashing :=
  {| sha256_hexdigest s := "sha256:" +:+ s;
     hash_string s := "sha256:" +:+ s |}.

(** A signature is valid for the key it names. *)
Definition verifier : SignatureVerifier :=
  {| backend_verify text signature public :=
       match public with
       | Some key => (String.eqb signature ("signed-by-" +:+ key), key)
       | None => (false, "")
       end |}.

(** The encoder tells requests apart by the status they ask for; the
    decoder knows three texts: an accepted proposal to close an endpoint, an
    accepted proposal to process one, and a draft that is not accepted. *)
Definition proposal (status : string) : value :=
  VDict (<["body" := VDict (<["data" := VDict (<["status" := VStr status]> ∅)]>
                            (<["info" := VDict ∅]> ∅))]>
        (<["meta" := VDict (<["accept" := VBool true]> ∅)]> ∅)).

Definition codec : CanonicalCodec :=
  {| to_canonical v :=
       match v with
       | VStr s => s
       | VDict d =>
           match d !! "data" with
           | Some (VDict data) =>
               match data !! "status" with
               | Some (VStr s) => "status=" +:+ s
               | _ => "document"
               end
           | _ => "document"
           end
       | _ => "document"
       end;
     from_canonical s :=
       if String.eqb s "close E" then Ok (proposal "CLOSED")
       else if String.eqb s "process E" then Ok (proposal "PROCESSED")
       else if String.eqb s "draft"
       then Ok (VDict (<["meta" := VDict (<["accept" := VBool false]> ∅)]> ∅))
       else Raise CanonicalError;
     from_unicode s := s |}.

(** A peer [P] owned by [alice], its endpoint [E], and a negotiation sealed
    by [alice] on the text [text] under the consensus id [c1]. *)
Definition endpoint_E (status : CycleStatus) (last : string) : Endpoint :=
  {| e_endpoint_id := "E"; e_peer_id := "P"; e_status := status;
     e_size_min := 0; e_size_max := 3; e_inbox_hash := None;
     e_outbox_hash := None; e_process_proof := VNone;
     e_last_consensus_id := Some last |}.

Definition sealed_by_alice (text : string) (E : Endpoint) : DB :=
  {| negotiations :=
       {["N" := {| n_id := "N"; n_status := NEG_DONE; n_text := Some text;
                   n_timestamp := Some {| isoformat := "2017-01-01T00:00:00" |};
                   n_consensus := Some "c1" |}]};
     contributions :=
       [ {| c_negotiation := "N"; c_text := text; c_signer_key_id := "alice";
            c_signature := "signed-by-alice"; c_latest := true |} ];
     signings :=
       [ {| s_negotiation := "N"; s_signer_key_id := "alice";
            s_signature := "signed-by-alice" |} ];
     peers := {["P" := {| p_peer_id := "P"; p_status := "READY" |}]};
     owners := [ {| o_peer_id := "P"; o_owner_key_id := "alice" |} ];
     endpoints := {["E" := E]};
     messages := [] |}.

(** [alice] asks for [status] on [E], by consensus [c1], on top of the
    consensus [on_last]. *)
Definition update_request (status on_last : string) : Request :=
  {| r_user_peer_id := "alice"; r_auth := None;
     r_data := VDict
       (<["data" := VDict (<["status" := VStr status]> ∅)]>
       (<["info" := VDict (<["operation" := VStr "partial_update"]>
                          (<["resource" := VStr "endpoint"]>
                          (<["id" := VStr "E"]>
                          (<["on_last_consensus_id" := VStr on_last]> ∅))))]>
       (<["by_consensus" := VDict (<["consensus_id" := VStr "c1"]>
                                  (<["consensus_type" := VStr "structural"]>
                                   ∅))]> ∅))) |}.

(** A negotiation [N] that is open, with the latest contribution of
    [alice], a draft. *)
Definition open_N : Negotiation :=
  {| n_id := "N"; n_status := NEG_OPEN; n_text := None; n_timestamp := None;
     n_consensus := None |}.

Definition contribution_of (signer text : string) : Contribution :=
  {| c_negotiation := "N"; c_text := text; c_signer_key_id := signer;
     c_signature := "signed-by-" +:+ signer; c_latest := true |}.

Definition negotiating (rows : list Contribution) : DB :=
  {| negotiations := {["N" := open_N]}; contributions := rows; signings := [];
     peers := ∅; owners := []; endpoints := ∅; messages := [] |}.

Definition contribution_request (signer text : string) : value :=
  VDict (<["text" := VStr text]>
        (<["signature" := VStr ("signed-by-" +:+ signer)]>
        (<["signer_key_id" := VStr signer]> ∅))).

Definition midnight : datetime := {| isoformat := "2017-01-01T00:00:00" |}.

End Sample.

(** ** The other views *)

(** [s.rstrip('/')] and [s.split('/')], on which [ContributionView] reads
    the negotiation id off the reference it is given. *)
Definition slash : ascii := "/"%char.

Fixpoint rstrip_slash (s : string) : string :=
  match s with
  | EmptyString => EmptyString
  | String c s' =>
      match rstrip_slash s' with
      | EmptyString => if Ascii.eqb c slash then EmptyString
                       else String c EmptyString
      | rest => String c rest
      end
  end.

Fixpoint split_slash (s : string) : list string :=
  match s with
  | EmptyString => [EmptyString]
  | String c s' =>
      if Ascii.eqb c slash then EmptyString :: split_slash s'
      else match split_slash s' with
           | first :: others => String c first :: others
           | [] => [String c EmptyString]
           end
  end.

(** [l[-1]] on the result of a [split], which is never empty. *)
Definition last_part (parts : list string) : string :=
  default EmptyString (last parts).

(** [n] slashes, and the strings that hold none. *)
Fixpoint slashes (n : nat) : string :=
  match n with
  | O => EmptyString
  | S n' => String slash (slashes n')
  end.

Fixpoint no_slash (s : string) : bool :=
  match s with
  | EmptyString => true
  | String c s' => negb (Ascii.eqb c slash) && no_slash s'
  end.

(** [v.rstrip('/')]: only a string has the method. *)
Definition py_rstrip_slash (v : value) : result string :=
  match v with
  | VStr s => Ok (rstrip_slash s)
  | _ => Raise AttributeError
  end.

Section Contribution_view.
Context `{CanonicalCodec} `{Hashing} `{SignatureVerifier}.

Definition ContributionView_creation_logic (now : datetime) (request : Request)
  : M Contribution :=
  let key_data := r_auth request in
  let request_data := r_data request in
  data ← lift (dict_get request_data "data" (VDict ∅));
  info ← lift (dict_get request_data "info" (VDict ∅));
  lift (validate_operation info "create" "contribution");;
  negotiation ← lift (dict_get data "negotiation" VNone);
  negotiation_href ← lift (py_rstrip_slash negotiation);
  let negotiation_id := last_part (split_slash negotiation_href) in
  negotiation ← get_instance negotiations (VStr negotiation_id);
  contribute_to_negotiation now negotiation data key_data.

End Contribution_view.

(** [d.pop(k)]: the value and the dictionary without the key. *)
Definition dict_pop (d : value) (k : string) : result (value * value) :=
  match d with
  | VDict m =>
      match m !! k with
      | Some v => Ok (v, VDict (delete k m))
      | None => Raise (KeyError k)
      end
  | _ => Raise AttributeError
  end.

(** [[owner["owner_key_id"] for owner in owners]] *)
Definition owner_key_ids (owners : value) : result (list value) :=
  entries ← py_iter owners;
  mapM (λ owner, subscript owner "owner_key_id") entries.

Definition set_owners (f : list Owner → list Owner) (db : DB) : DB :=
  {| negotiations := negotiations db; contributions := contributions db;
     signings := signings db; peers := peers db; owners := f (owners db);
     endpoints := endpoints db; messages := messages db |}.

(** What the creation views call outside this module: [create] of
    [models.Peer.objects] and of [models.Endpoint.objects] on the fields of
    the request, [peer.log_consensus] and [backend.register_key].  Each may
    read and write the database and may raise. *)
Class ModelStore := {
  Peer_objects_create : value → M Peer;
  Peer_log_consensus : Peer → value → M unit;
  backend_register_key : value → M unit;
  Endpoint_objects_create : value → M Endpoint;
}.

Section Creation_views.
Context `{CanonicalCodec} `{Hashing} `{ModelStore}.

(** An owner id goes into a text column: it is a string. *)
Definition PeerView_perform_create (data consensus_id : value) : M Peer :=
  '(owners, data) ← lift (dict_pop data "owners");
  owners ← lift (owner_key_ids owners);
  peer ← Peer_objects_create data;
  owners ← lift (mapM as_str owners);
  let owner_entries :=
    (λ owner, {| o_peer_id := p_peer_id peer; o_owner_key_id := owner |})
      <$> owners in
  write (set_owners (λ rows, rows ++ owner_entries));;
  Peer_log_consensus peer consensus_id;;
  key_data ← lift (subscript data "key_data");
  backend_register_key key_data;;
  mret peer.

(** The identities that [check_permission] compares with the requester's
    and looks up in the signings are strings. *)
Definition PeerView_creation_logic (request : Request) : M Peer :=
  let request_user := r_user_peer_id request in
  let request_data := r_data request in
  data ← lift (dict_get request_data "data" (VDict ∅));
  info ← lift (dict_get request_data "info" (VDict ∅));
  lift (validate_operation info "create" "peer");;
  '(consensus_id, consensus_body) ← lift (require_by_consensus request_data);
  signings ← handle_consensus consensus_body consensus_id;
  owners ← lift (dict_get data "owners" (VList []));
  owners ← lift (owner_key_ids owners);
  peer_id ← lift (subscript data "peer_id");
  status ← lift (dict_get data "status" VNone);
  if negb (eq_str status PeerStatus_READY)
  then raise (ValidationError "unexpected status")
  else
    owners ← lift (mapM as_str owners);
    peer_id ← lift (as_str peer_id);
    lift (check_permission peer_id owners signings request_user);;
    PeerView_perform_create data consensus_id.

Definition EndpointView_perform_create (data consensus_id : value)
  : M Endpoint :=
  status ← lift (dict_get data "status" VNone);
  if negb (eq_str status (CycleStatus_name OPEN))
  then raise (ValidationError "unexpected status")
  else
    endpoint ← Endpoint_objects_create data;
    log_consensus endpoint consensus_id.

Definition EndpointView_creation_logic (request : Request) : M Endpoint :=
  let request_user := r_user_peer_id request in
  let request_data := r_data request in
  data ← lift (dict_get request_data "data" (VDict ∅));
  info ← lift (dict_get request_data "info" (VDict ∅));
  lift (validate_operation info "create" "endpoint");;
  '(consensus_id, consensus_body) ← lift (require_by_consensus request_data);
  signings ← handle_consensus consensus_body consensus_id;
  peer_id ← lift (subscript data "peer_id");
  peer ← get_instance peers peer_id;
  if negb (String.eqb (p_status peer) PeerStatus_READY)
  then raise (PermissionDenied "peer is not in state READY")
  else
    owners ← list_owners peer;
    peer_id ← lift (as_str peer_id);
    lift (check_permission peer_id owners signings request_user);;
    EndpointView_perform_create data consensus_id.

End Creation_views.

(** Stand-ins for running the creation views: a store that keeps the peer
    or the endpoint of the request under its id, and a codec that also knows
    the two creation proposals. *)
Module SampleStore.

Definition set_peers (f : gmap string Peer → gmap string Peer) (db : DB) : DB :=
  {| negotiations := negotiations db; contributions := contributions db;
     signings := signings db; peers := f (peers db); owners := owners db;
     endpoints := endpoints db; messages := messages db |}.

Definition store : ModelStore :=
  {| Peer_objects_create data :=
       peer_id ← lift (subscript data "peer_id" ≫= as_str);
       status ← lift (subscript data "status" ≫= as_str);
       let peer := {| p_peer_id := peer_id; p_status := status |} in
       write (set_peers (<[peer_id := peer]>));;
       mret peer;
     Peer_log_consensus peer consensus_id := mret ();
     backend_register_key key_data := mret ();
     Endpoint_objects_create data :=
       endpoint_id ← lift (subscript data "endpoint_id" ≫= as_str);
       peer_id ← lift (subscript data "peer_id" ≫= as_str);
       let endpoint :=
         {| e_endpoint_id := endpoint_id; e_peer_id := peer_id;
            e_status := OPEN; e_size_min := 0; e_size_max := 0;
            e_inbox_hash := None; e_outbox_hash := None;
            e_process_proof := VNone; e_last_consensus_id := None |} in
       write (set_endpoints (<[endpoint_id := endpoint]>));;
       mret endpoint |}.

Definition codec : CanonicalCodec :=
  {| to_canonical := @to_canonical Sample.codec;
     from_canonical s :=
       if String.eqb s "create peer" then Ok (Sample.proposal "READY")
       else if String.eqb s "create endpoint" then Ok (Sample.proposal "OPEN")
       else @from_canonical Sample.codec s;
     from_unicode s := s |}.

(** [alice] asks to create [resource] with the fields [data], by the
    consensus [c1]. *)
Definition creation_request (resource : string) (data : gmap string value)
  : Request :=
  {| r_user_peer_id := "alice"; r_auth := None;
     r_data := VDict
       (<["data" := VDict data]>
       (<["info" := VDict (<["operation" := VStr "create"]>
                          (<["resource" := VStr resource]> ∅))]>
       (<["by_consensus" := VDict (<["consensus_id" := VStr "c1"]>
                                  (<["consensus_type" := VStr "structural"]>
                                   ∅))]> ∅))) |}.

Definition peer_data : gmap string value :=
  <["peer_id" := VStr "Q"]>
  (<["status" := VStr "READY"]>
  (<["key_data" := VStr "key of Q"]>
  (<["owners" := VList [VDict (<["owner_key_id" := VStr "alice"]> ∅)]]> ∅))).

Definition endpoint_data : gmap string value :=
  <["endpoint_id" := VStr "E2"]>
  (<["peer_id" := VStr "P"]>
  (<["status" := VStr "OPEN"]> ∅)).

End SampleStore.

(** ** Effects of a handler *)

(** [preserves R m]: whatever [m] returns or raises, the database it
    leaves is related by [R] to the one it found. *)
Definition preserves {A} (R : relation DB) (m : M A) : Prop :=
  ∀ db r db', m db = (r, db') → R db db'.

(** A handler that never writes, and one that has written nothing when it
    raises. *)
Definition read_only {A} (m : M A) : Prop := preserves (λ db db', db' = db) m.

Definition raises_unchanged {A} (m : M A) : Prop :=
  ∀ db err db', m db = (Raise err, db') → db' = db.

(** One message across a handler: kept, or moved forward one box. *)
Definition moved_forward (m m' : Message) : Prop :=
  m' = m ∨
  (m_box m = INBOX ∧ m' = move_to ACCEPTED m) ∨
  (m_box m = PROCESSBOX ∧ m' = move_to OUTBOX m).

Definition messages_move_forward (db db' : DB) : Prop :=
  Forall2 moved_forward (messages db) (messages db').

(** Two databases with the same endpoints and owners. *)
Definition same_cycle (db db' : DB) : Prop :=
  endpoints db' = endpoints db ∧ owners db' = owners db.

(** * Properties *)

(** ** Permission checks *)

Lemma assert_signed_loop_ok owners (signings : gmap string string) :
  assert_signed_loop owners signings = Ok () ↔
  ∀ owner, owner ∈ owners → is_Some (signings !! owner).
Proof.
  induction owners as [|o rest IH]; simpl.
  - split; [intros _ ? Hin; inversion Hin | done].
  - destruct (signings !! o) as [sig|] eqn:Ho.
    + rewrite IH. split.
      * intros Hrest owner Hin. apply elem_of_cons in Hin as [->|Hin]; eauto.
      * intros Hall owner Hin. apply Hall. by right.
    + split; [done|]. intros Hall.
      destruct (Hall o) as [? Hsome]; [by left|]. congruence.
Qed.

Lemma assert_signed_loop_denies owners (signings : gmap string string) :
  assert_signed_loop owners signings = Ok () ∨
  ∃ msg, assert_signed_loop owners signings = Raise (PermissionDenied msg).
Proof.
  induction owners as [|o rest IH]; simpl; [by left|].
  destruct (signings !! o); eauto.
Qed.

Lemma assert_consensus_signed_ok owners (signings : gmap string string) :
  assert_consensus_signed owners signings = Ok () ↔
  signings ≠ ∅ ∧ ∀ owner, owner ∈ owners → is_Some (signings !! owner).
Proof.
  unfold assert_consensus_signed.
  destruct (Nat.eqb_spec (size signings) 0) as [Hz|Hnz].
  - apply map_size_empty_iff in Hz. split; [done|]. by intros [? _].
  - rewrite assert_signed_loop_ok. split; [|by intros [_ ?]].
    intros Hall. split; [|done]. by rewrite <- map_size_empty_iff.
Qed.

Lemma assert_consensus_signed_denies owners (signings : gmap string string) :
  assert_consensus_signed owners signings = Ok () ∨
  ∃ msg, assert_consensus_signed owners signings = Raise (PermissionDenied msg).
Proof.
  unfold assert_consensus_signed.
  destruct (size signings =? 0)%nat; eauto using assert_signed_loop_denies.
Qed.

Lemma signed_nonempty (signings : gmap string string) (owner : string) :
  is_Some (signings !! owner) → signings ≠ ∅.
Proof. intros [sig Hsig] ->. by rewrite lookup_empty in Hsig. Qed.

(** C6. [check_permission]: with owners, the check passes exactly when the
    requester is an owner and every owner is a key of the signings; without
    owners, exactly when the requester is the subject and is a key of the
    signings.  Every failure is a [PermissionDenied], and empty signings
    always fail. *)
Theorem check_permission_spec (peer_id : string) (owners : list string)
    (signings : gmap string string) (request_peer_id : string) :
  (owners ≠ [] →
     check_permission peer_id owners signings request_peer_id = Ok () ↔
     request_peer_id ∈ owners ∧
     ∀ owner, owner ∈ owners → is_Some (signings !! owner)) ∧
  (owners = [] →
     check_permission peer_id owners signings request_peer_id = Ok () ↔
     request_peer_id = peer_id ∧ is_Some (signings !! request_peer_id)) ∧
  (check_permission peer_id owners signings request_peer_id = Ok () ∨
   ∃ msg, check_permission peer_id owners signings request_peer_id
          = Raise (PermissionDenied msg)) ∧
  (signings = ∅ →
   ∃ msg, check_permission peer_id owners signings request_peer_id
          = Raise (PermissionDenied msg)).
Proof.
  assert (Hdenies :
    check_permission peer_id owners signings request_peer_id = Ok () ∨
    ∃ msg, check_permission peer_id owners signings request_peer_id
           = Raise (PermissionDenied msg)).
  { unfold check_permission. destruct owners as [|o rest].
    - destruct (String.eqb request_peer_id peer_id); simpl;
        eauto using assert_consensus_signed_denies.
    - destruct (bool_decide _); simpl;
        eauto using assert_consensus_signed_denies. }
  assert (Hwith : owners ≠ [] →
     check_permission peer_id owners signings request_peer_id = Ok () ↔
     request_peer_id ∈ owners ∧
     ∀ owner, owner ∈ owners → is_Some (signings !! owner)).
  { intros Hne. unfold check_permission.
    destruct owners as [|o rest]; [done|].
    case_bool_decide as Hin; simpl.
    - rewrite assert_consensus_signed_ok. split.
      + by intros [_ Hall].
      + intros [_ Hall]. split; [|done].
        apply (signed_nonempty _ o), Hall. by left.
    - split; [done|]. by intros [? _]. }
  assert (Hwithout : owners = [] →
     check_permission peer_id owners signings request_peer_id = Ok () ↔
     request_peer_id = peer_id ∧ is_Some (signings !! request_peer_id)).
  { intros ->. unfold check_permission.
    destruct (String.eqb_spec request_peer_id peer_id) as [->|Hne]; simpl.
    - rewrite assert_consensus_signed_ok. split.
      + intros [_ Hall]. split; [done|]. apply Hall. by left.
      + intros [_ Hsig]. split; [by eapply signed_nonempty|].
        by intros owner ->%list_elem_of_singleton.
    - split; [done|]. by intros [? _]. }
  split; [exact Hwith|]. split; [exact Hwithout|]. split; [exact Hdenies|].
  intros ->. destruct Hdenies as [Hok|?]; [|done]. exfalso.
  destruct owners as [|o rest].
  - apply Hwithout in Hok as [_ [? Hsig]]; [|done].
    by rewrite lookup_empty in Hsig.
  - apply Hwith in Hok as [_ Hall]; [|done].
    destruct (Hall o) as [? Hsig]; [by left|]. by rewrite lookup_empty in Hsig.
Qed.

(** ** Consensus references *)

(** C9. A request whose [by_consensus] carries a consensus id and a
    [consensus_type] that is missing or is not ["structural"] makes
    [require_by_consensus] read the unassigned local [consensus_body]: it
    ends in [UnboundLocalError], not in a validation or permission error. *)
Theorem require_by_consensus_unbound `{CanonicalCodec}
    (request_data by_consensus : gmap string value) (consensus_id : value) :
  request_data !! "by_consensus" = Some (VDict by_consensus) →
  by_consensus !! "consensus_id" = Some consensus_id →
  consensus_id ≠ VNone →
  by_consensus !! "consensus_type" ≠ Some (VStr T_STRUCTURAL) →
  require_by_consensus (VDict request_data)
  = Raise (UnboundLocalError "consensus_body").
Proof.
  intros Hby Hid Hnone Htype. unfold require_by_consensus. simpl.
  rewrite Hby. simpl.
  assert (size by_consensus ≠ 0%nat) as Hsize.
  { rewrite map_size_empty_iff. intros ->. by rewrite lookup_empty in Hid. }
  destruct (Nat.eqb_spec (size by_consensus) 0) as [|_]; [done|]. simpl.
  rewrite Hid. simpl.
  assert (is_None consensus_id = false) as -> by by destruct consensus_id.
  destruct (by_consensus !! "consensus_type") as [[| | |ty| |]|] eqn:Ht;
    simpl; try done.
  destruct (String.eqb_spec ty T_STRUCTURAL) as [->|]; done.
Qed.

Lemma require_by_consensus_unbound_witness :
  @require_by_consensus Sample.codec
    (VDict (<["by_consensus" :=
               VDict (<["consensus_id" := VStr "c1"]>
                     (<["consensus_type" := VStr "temporal"]> ∅))]> ∅))
  = Raise (UnboundLocalError "consensus_body").
Proof.
  apply (@require_by_consensus_unbound Sample.codec
           (<["by_consensus" :=
               VDict (<["consensus_id" := VStr "c1"]>
                     (<["consensus_type" := VStr "temporal"]> ∅))]> ∅)
           (<["consensus_id" := VStr "c1"]>
              (<["consensus_type" := VStr "temporal"]> ∅))
           (VStr "c1")).
  - reflexivity.
  - reflexivity.
  - discriminate.
  - vm_compute. discriminate.
Defined.

(** X21. The structural branch is the one that returns: with a consensus
    id and the type ["structural"], [require_by_consensus] gives back the id
    and the canonical encoding of the [data] and [info] of the request, and
    of nothing else in it. *)
Lemma require_by_consensus_structural `{CanonicalCodec}
    (request_data by_consensus : gmap string value) (consensus_id : value) :
  request_data !! "by_consensus" = Some (VDict by_consensus) →
  by_consensus !! "consensus_id" = Some consensus_id →
  consensus_id ≠ VNone →
  by_consensus !! "consensus_type" = Some (VStr T_STRUCTURAL) →
  require_by_consensus (VDict request_data)
  = Ok (consensus_id,
        to_canonical (VDict (<["data" := default VNone (request_data !! "data")]>
                            (<["info" := default VNone (request_data !! "info")]>
                             ∅)))).
Proof.
  intros Hby Hid Hnone Htype. unfold require_by_consensus. simpl.
  rewrite Hby. simpl.
  assert (size by_consensus ≠ 0%nat) as Hsize.
  { rewrite map_size_empty_iff. intros ->. by rewrite lookup_empty in Hid. }
  destruct (Nat.eqb_spec (size by_consensus) 0) as [|_]; [done|]. simpl.
  rewrite Hid, Htype. simpl.
  by destruct consensus_id.
Qed.

(** ** The message hash *)

Lemma string_app_assoc (a b c : string) : (a +:+ b) +:+ c = a +:+ b +:+ c.
Proof.
  induction a as [|x a IH]; [done|].
  change (String x ((a +:+ b) +:+ c) = String x (a +:+ b +:+ c)).
  by rewrite IH.
Qed.

Lemma fed_hash_message `{Hashing} (text sender recipient : string) :
  hash_message text sender recipient
  = sha256_hexdigest (text +:+ sender +:+ recipient).
Proof.
  unfold hash_message, hexdigest, update, hashlib_sha256. simpl.
  by rewrite string_app_assoc.
Qed.

(** C10. [hash_message] feeds the three fields to the hasher with nothing
    between them, so the digest depends on their concatenation only: moving
    the last character of the text to the front of the sender keeps the
    hash, two different messages have the same content hash, and
    [perform_create] stores both under that one hash. *)
Theorem hash_message_not_injective `{Hashing} :
  (∀ (text : string) (c : ascii) (sender recipient : string),
     hash_message (text +:+ String c "") sender recipient
     = hash_message text (String c sender) recipient) ∧
  (∃ t1 s1 r1 t2 s2 r2 : string,
     (t1, s1, r1) ≠ (t2, s2, r2) ∧
     hash_message t1 s1 r1 = hash_message t2 s2 r2) ∧
  (∃ (data1 data2 : value) (m1 m2 : Message),
     (MessageView_perform_create data1 empty_db).1 = Ok m1 ∧
     (MessageView_perform_create data2 empty_db).1 = Ok m2 ∧
     (m_text m1, m_sender m1, m_recipient m1)
       ≠ (m_text m2, m_sender m2, m_recipient m2) ∧
     m_message_hash m1 = m_message_hash m2).
Proof.
  split; [|split].
  - intros text c sender recipient. rewrite !fed_hash_message.
    f_equal. by rewrite string_app_assoc.
  - exists "ab", "c", "d", "a", "bc", "d". split; [discriminate|].
    by rewrite !fed_hash_message.
  - exists (VDict (<["box" := VStr "INBOX"]> (<["endpoint_id" := VStr "E"]>
              (<["text" := VStr "ab"]> (<["sender" := VStr "c"]>
              (<["recipient" := VStr "d"]> ∅)))))),
           (VDict (<["box" := VStr "INBOX"]> (<["endpoint_id" := VStr "E"]>
              (<["text" := VStr "a"]> (<["sender" := VStr "bc"]>
              (<["recipient" := VStr "d"]> ∅)))))).
    eexists _, _. split; [reflexivity|]. split; [reflexivity|].
    split; [discriminate|reflexivity].
Qed.

(** ** The endpoint cycle *)

Lemma requested_hashes_absent (d : gmap string value) :
  d !! "message_hashes" = None → requested_hashes (VDict d) = Ok [].
Proof. intros Hd. unfold requested_hashes. simpl. by rewrite Hd. Qed.

Lemma filter_in_queryset_nil endpoint_id box (ms : list Message) :
  filter (in_queryset [] endpoint_id box) ms = [].
Proof.
  induction ms as [|m ms IH]; [done|].
  rewrite filter_cons_False; [done|].
  intros [Hin _]. by apply not_elem_of_nil in Hin.
Qed.

Lemma queryset_update_nil endpoint_id box new_box (db : DB) :
  queryset_update [] endpoint_id box new_box db = (Ok (), db).
Proof.
  unfold queryset_update, write. f_equal.
  destruct db as [ns cs ss ps os es ms]. unfold set_messages. simpl. f_equal.
  induction ms as [|m ms IH]; [done|].
  rewrite fmap_cons, IH. by f_equal.
Qed.

Lemma record_endpoint_process_no_hashes `{Hashing} (endpoint : Endpoint)
    (d : gmap string value) (db : DB) :
  d !! "message_hashes" = None →
  let endpoint' :=
    processed_with (default VNone (d !! "process_proof"))
                   (compute_messages_hash []) endpoint in
  record_endpoint_process endpoint (VDict d) db
  = (Ok endpoint', set_endpoints (<[e_endpoint_id endpoint := endpoint']>) db).
Proof.
  intros Hd endpoint'. unfold record_endpoint_process.
  rewrite requested_hashes_absent by done. cbn [dict_get].
  unfold mbind, M_bind, lift, queryset_count, query.
  rewrite filter_in_queryset_nil.
  change (negb (Z.of_nat (length []) =? Z.of_nat (length (@nil Message))))
    with false.
  unfold save_endpoint, write. cbv beta iota.
  by rewrite queryset_update_nil.
Qed.

(** [close_endpoint] does look at the current status: nothing is closed
    that is not [OPEN] or [FULL]. *)
Lemma close_endpoint_wrong_state `{Hashing} (endpoint : Endpoint) (data : value)
    (db : DB) :
  e_status endpoint = CLOSED ∨ e_status endpoint = PROCESSED →
  close_endpoint endpoint data db
  = (Raise (PermissionDenied "wrong current state"), db).
Proof. unfold close_endpoint. by intros [->| ->]. Qed.

(** C1 (the code departs from the claim).  [record_endpoint_process] never
    reads the current status: a request for [PROCESSED] with no message
    hashes moves an endpoint to [PROCESSED] from any status, [OPEN] and
    [PROCESSED] included, and replaces its outbox hash and process proof. *)
Theorem process_from_any_status `{Hashing} (endpoint : Endpoint)
    (process_proof : value) (consensus_id : string) (db : DB) :
  let data := VDict (<["status" := VStr "PROCESSED"]>
                    (<["process_proof" := process_proof]> ∅)) in
  let endpoint' :=
    logged consensus_id
      (processed_with process_proof (compute_messages_hash []) endpoint) in
  apply_transition endpoint data (VStr consensus_id) db
  = (Ok endpoint', set_endpoints (<[e_endpoint_id endpoint := endpoint']>) db)
  ∧ e_status endpoint' = PROCESSED.
Proof.
  intros data endpoint'. split; [|done].
  unfold apply_transition, data. cbn [dict_get].
  rewrite lookup_insert_eq. cbn [default from_option id].
  unfold mbind, M_bind, lift.
  change (eq_str (VStr "PROCESSED") (CycleStatus_name CLOSED)) with false.
  change (eq_str (VStr "PROCESSED") (CycleStatus_name PROCESSED)) with true.
  cbn iota.
  rewrite record_endpoint_process_no_hashes
    by (by rewrite !lookup_insert_ne, lookup_empty).
  rewrite lookup_insert_ne, lookup_insert_eq by done.
  cbn [default from_option id].
  unfold log_consensus, mbind, M_bind, lift, save_endpoint, write, mret, M_ret.
  cbn [as_str]. f_equal.
  destruct db as [ns cs ss ps os es ms]. unfold set_endpoints. simpl.
  f_equal. apply insert_insert_eq.
Qed.

(** The same on two concrete endpoints: one that is still open, and one
    that has been processed already. *)
Example process_an_open_endpoint `{Hashing} :
  let E := {| e_endpoint_id := "E"; e_peer_id := "P"; e_status := OPEN;
              e_size_min := 2; e_size_max := 3; e_inbox_hash := None;
              e_outbox_hash := None; e_process_proof := VNone;
              e_last_consensus_id := Some "c0" |} in
  let data := VDict (<["status" := VStr "PROCESSED"]> ∅) in
  let db := set_endpoints (<["E" := E]>) empty_db in
  e_status <$> (apply_transition E data (VStr "c1") db).1 = Ok PROCESSED.
Proof. reflexivity. Qed.

(** ** Message admission *)

(** The part of the admission rule that the code enforces: nothing enters
    [PROCESSBOX] unless the cycle is closed. *)
Lemma check_cycle_can_process_ok (endpoint : Endpoint) :
  check_cycle_can_process endpoint = Ok () ↔ e_status endpoint = CLOSED.
Proof.
  unfold check_cycle_can_process. case_bool_decide; simpl; split; done.
Qed.

(** C2 (the code departs from the claim).  The result of [check_is_owner]
    is dropped: [mallory], who is neither the peer of the endpoint nor one of
    its owners, posts to [PROCESSBOX] of a closed endpoint and the message
    is created. *)
Theorem processbox_admits_a_stranger `{Hashing} :
  let E := {| e_endpoint_id := "E"; e_peer_id := "P"; e_status := CLOSED;
              e_size_min := 1; e_size_max := 3; e_inbox_hash := Some "h";
              e_outbox_hash := None; e_process_proof := VNone;
              e_last_consensus_id := Some "c1" |} in
  let db :=
    {| negotiations := ∅; contributions := []; signings := []; peers := ∅;
       owners := [ {| o_peer_id := "P"; o_owner_key_id := "alice" |} ];
       endpoints := {["E" := E]}; messages := [] |} in
  let request :=
    {| r_user_peer_id := "mallory"; r_auth := None;
       r_data := VDict
         (<["info" := VDict (<["operation" := VStr "create"]>
                            (<["resource" := VStr "message"]> ∅))]>
         (<["data" := VDict (<["endpoint_id" := VStr "E"]>
                            (<["box" := VStr "PROCESSBOX"]>
                            (<["text" := VStr "t"]>
                            (<["sender" := VStr "s"]>
                            (<["recipient" := VStr "r"]> ∅)))))]> ∅)) |} in
  let message :=
    {| m_sender := "s"; m_recipient := "r"; m_text := "t";
       m_message_hash := hash_message "t" "s" "r"; m_endpoint_id := "E";
       m_box := PROCESSBOX |} in
  (check_is_owner E "mallory" db).1 = Ok false ∧
  MessageView_creation_logic request db
  = (Ok message, set_messages (λ ms, ms ++ [message]) db).
Proof. split; reflexivity. Qed.

(** ** Closing an endpoint *)

(** [close_endpoint] as one case analysis on what it reads. *)
Lemma close_endpoint_unfold `{Hashing} (endpoint : Endpoint) (data : value)
    (db : DB) :
  close_endpoint endpoint data db =
  if negb (bool_decide (e_status endpoint ∈ [OPEN; FULL]))
  then (Raise (PermissionDenied "wrong current state"), db)
  else match requested_hashes data with
       | Raise err => (Raise err, db)
       | Ok hashes =>
           let count := Z.of_nat (length (resolved hashes endpoint db)) in
           if negb (Z.of_nat (length hashes) =? count)
           then (Raise (PermissionDenied "message count mismatch"), db)
           else if count <? e_size_min endpoint
           then (Raise (PermissionDenied "Didn't reach min size"), db)
           else if count >? e_size_max endpoint
           then (Raise (PermissionDenied "Too many messages"), db)
           else
             let endpoint' := closed_with (compute_messages_hash hashes) endpoint in
             (Ok endpoint',
              set_messages
                (fmap (λ m, if decide (in_queryset hashes (e_endpoint_id endpoint)
                                                   INBOX m)
                            then move_to ACCEPTED m else m))
                (set_endpoints (<[e_endpoint_id endpoint := endpoint']>) db))
       end.
Proof.
  unfold close_endpoint, resolved.
  destruct (negb _); [done|].
  unfold mbind, M_bind, lift, queryset_count, query.
  destruct (requested_hashes data) as [hashes|err]; [|done].
  cbv zeta.
  destruct (negb _); [done|].
  destruct (_ <? _); [done|].
  destruct (_ >? _); done.
Qed.

(** A rejected close leaves the database as it was. *)
Lemma close_endpoint_rejects_unchanged `{Hashing} (endpoint : Endpoint)
    (data : value) (db db' : DB) (err : exn) :
  close_endpoint endpoint data db = (Raise err, db') → db' = db.
Proof.
  rewrite close_endpoint_unfold.
  destruct (negb _); [congruence|].
  destruct (requested_hashes data); [|congruence]. cbv zeta.
  destruct (negb _); [congruence|].
  destruct (_ <? _); [congruence|].
  destruct (_ >? _); congruence.
Qed.

Lemma resolved_inbox (hashes : list string) (endpoint : Endpoint) (db : DB) :
  resolved hashes endpoint db
  = filter (λ m, m_message_hash m ∈ hashes) (inbox_of endpoint db).
Proof.
  unfold resolved, inbox_of. rewrite list_filter_filter.
  apply list_filter_iff. intros m. unfold in_queryset. tauto.
Qed.

(** When the inbox messages of the endpoint have distinct hashes, a
    submitted hash that is not among them makes the resolved messages fewer
    than the submitted hashes. *)
Lemma resolved_short (hashes : list string) (endpoint : Endpoint) (db : DB)
    (h : string) :
  NoDup (m_message_hash <$> inbox_of endpoint db) →
  h ∈ hashes →
  h ∉ m_message_hash <$> inbox_of endpoint db →
  (length (resolved hashes endpoint db) < length hashes)%nat.
Proof.
  intros Hnodup Hin Hout. rewrite resolved_inbox.
  set (found := filter (λ m, m_message_hash m ∈ hashes) (inbox_of endpoint db)).
  rewrite <- (length_fmap m_message_hash found).
  apply Nat.le_lt_trans with (length (filter (λ x, x ≠ h) hashes)).
  - apply submseteq_length, NoDup_submseteq.
    + eapply sublist_NoDup; [exact Hnodup|].
      apply fmap_sublist, sublist_filter.
    + intros x [m [-> [Hm Hbox]%list_elem_of_filter]]%list_elem_of_fmap.
      apply list_elem_of_filter. split; [|done].
      intros Heq. apply Hout, list_elem_of_fmap. eauto.
  - apply (length_filter_lt _ _ h); [done|]. by intros ?.
Qed.

(** C3 (as amended).  [close_endpoint] rejects, with the database
    unchanged, a request whose number of hashes is below [size_min] or above
    [size_max], and one whose hashes resolve to a different number of inbox
    messages of the endpoint; when the inbox messages of the endpoint have
    pairwise distinct hashes, that covers every request with a hash that
    belongs to no inbox message of the endpoint. *)
Theorem close_endpoint_rejects `{Hashing} (endpoint : Endpoint) (data : value)
    (db : DB) (hashes : list string) :
  requested_hashes data = Ok hashes →
  Z.of_nat (length hashes) < e_size_min endpoint ∨
  e_size_max endpoint < Z.of_nat (length hashes) ∨
  length (resolved hashes endpoint db) ≠ length hashes ∨
  (NoDup (m_message_hash <$> inbox_of endpoint db) ∧
   ∃ h, h ∈ hashes ∧ h ∉ m_message_hash <$> inbox_of endpoint db) →
  ∃ err, close_endpoint endpoint data db = (Raise err, db).
Proof.
  intros Hhashes Hbad.
  assert (Hbad' :
    Z.of_nat (length hashes) < e_size_min endpoint ∨
    e_size_max endpoint < Z.of_nat (length hashes) ∨
    length (resolved hashes endpoint db) ≠ length hashes).
  { destruct Hbad as [?|[?|[?|[Hnodup (h & Hin & Hout)]]]]; auto.
    right; right. pose proof (resolved_short _ _ _ _ Hnodup Hin Hout). lia. }
  clear Hbad. rewrite close_endpoint_unfold, Hhashes.
  destruct (negb (bool_decide _)); [eauto|]. cbv zeta.
  destruct (Z.eqb_spec (Z.of_nat (length hashes))
              (Z.of_nat (length (resolved hashes endpoint db)))) as [Heq|Hne];
    simpl; [|eauto].
  destruct (Z.ltb_spec (Z.of_nat (length (resolved hashes endpoint db)))
              (e_size_min endpoint)); [eauto|].
  destruct (Z.gtb_spec (Z.of_nat (length (resolved hashes endpoint db)))
              (e_size_max endpoint)); [eauto|].
  exfalso. lia.
Qed.

Lemma close_endpoint_rejects_witness :
  let E := {| e_endpoint_id := "E"; e_peer_id := "P"; e_status := OPEN;
              e_size_min := 2; e_size_max := 3; e_inbox_hash := None;
              e_outbox_hash := None; e_process_proof := VNone;
              e_last_consensus_id := Some "c0" |} in
  let m := {| m_sender := "s"; m_recipient := "r"; m_text := "t";
              m_message_hash := "a"; m_endpoint_id := "E"; m_box := INBOX |} in
  let db := set_messages (λ _, [m]) (set_endpoints (<["E" := E]>) empty_db) in
  let data :=
    VDict (<["message_hashes" :=
               VList [VDict (<["hash" := VStr "a"]> ∅);
                      VDict (<["hash" := VStr "b"]> ∅)]]> ∅) in
  ∃ err, @close_endpoint Sample.hashing E data db = (Raise err, db).
Proof.
  intros E m db data.
  apply (@close_endpoint_rejects Sample.hashing E data db ["a"; "b"]).
  - reflexivity.
  - right; right; right. split.
    + apply (bool_decide_unpack _). vm_compute. exact I.
    + exists "b". split; apply (bool_decide_unpack _); vm_compute; exact I.
Defined.

(** Rows are counted, not hashes: with the same message twice in the
    inbox, a request that lists its hash and any other hash resolves to two
    rows for two hashes, whatever the digest function. *)
Lemma close_endpoint_counts_rows `{Hashing} (endpoint : Endpoint) (m : Message)
    (unknown : string) (data : value) (db : DB) :
  e_status endpoint = OPEN →
  m_endpoint_id m = e_endpoint_id endpoint → m_box m = INBOX →
  messages db = [m; m] →
  unknown ≠ m_message_hash m →
  e_size_min endpoint ≤ 2 ≤ e_size_max endpoint →
  requested_hashes data = Ok [m_message_hash m; unknown] →
  (unknown ∉ m_message_hash <$> inbox_of endpoint db) ∧
  is_ok (close_endpoint endpoint data db).1 = true.
Proof.
  intros Hopen Hid Hbox Hrows Hunknown Hsize Hhashes.
  assert (Hinbox : inbox_of endpoint db = [m; m]).
  { unfold inbox_of. rewrite Hrows. by rewrite !filter_cons_True. }
  split.
  - rewrite Hinbox. cbn. rewrite !not_elem_of_cons. split_and!; [done..|].
    apply not_elem_of_nil.
  - rewrite close_endpoint_unfold, Hopen, Hhashes. cbn [negb bool_decide].
    rewrite bool_decide_true by (by left). cbn [negb].
    assert (Hall : resolved [m_message_hash m; unknown] endpoint db = [m; m]).
    { rewrite resolved_inbox, Hinbox.
      by rewrite !filter_cons_True by (by left). }
    cbv zeta. rewrite Hall. cbn [length].
    change (Z.of_nat 2) with 2.
    change (negb (2 =? 2)) with false. cbv iota.
    destruct (Z.ltb_spec 2 (e_size_min endpoint)); [lia|].
    destruct (Z.gtb_spec 2 (e_size_max endpoint)); [lia|]. done.
Qed.

(** C3 (the claim as stated fails).  The same message is posted twice to
    the inbox of the open endpoint [E]; both rows carry the same hash.  A
    close request that lists that hash and a hash that was never posted
    resolves to two messages for two hashes, and is accepted. *)
Lemma close_endpoint_accepts_unknown_hash :
  let E := {| e_endpoint_id := "E"; e_peer_id := "P"; e_status := OPEN;
              e_size_min := 2; e_size_max := 3; e_inbox_hash := None;
              e_outbox_hash := None; e_process_proof := VNone;
              e_last_consensus_id := Some "c0" |} in
  let post :=
    {| r_user_peer_id := "s"; r_auth := None;
       r_data := VDict
         (<["info" := VDict (<["operation" := VStr "create"]>
                            (<["resource" := VStr "message"]> ∅))]>
         (<["data" := VDict (<["endpoint_id" := VStr "E"]>
                            (<["box" := VStr "INBOX"]>
                            (<["text" := VStr "t"]>
                            (<["sender" := VStr "s"]>
                            (<["recipient" := VStr "r"]> ∅)))))]> ∅)) |} in
  let db0 := set_endpoints (<["E" := E]>) empty_db in
  let db1 := (@MessageView_creation_logic Sample.hashing post db0).2 in
  let db2 := (@MessageView_creation_logic Sample.hashing post db1).2 in
  let data :=
    VDict (<["message_hashes" :=
               VList [VDict (<["hash" := VStr "sha256:tsr"]> ∅);
                      VDict (<["hash" := VStr "never-posted"]> ∅)]]> ∅) in
  requested_hashes data = Ok ["sha256:tsr"; "never-posted"] ∧
  m_message_hash <$> inbox_of E db2 = ["sha256:tsr"; "sha256:tsr"] ∧
  ("never-posted" ∉ m_message_hash <$> inbox_of E db2) ∧
  ∃ E' db3, @close_endpoint Sample.hashing E data db2 = (Ok E', db3) ∧
            e_status E' = CLOSED ∧
            m_box <$> messages db3 = [ACCEPTED; ACCEPTED].
Proof.
  intros E post db0 db1 db2 data.
  split; [reflexivity|]. split; [reflexivity|]. split.
  - apply (bool_decide_unpack _). vm_compute. exact I.
  - eexists _, _. split; [vm_compute; reflexivity|]. split; reflexivity.
Qed.

(** ** The signer set of a consensus *)

Lemma ascii_compare_cases (x y : ascii) :
  (Ascii.compare x y = Eq ∧ N_of_ascii x = N_of_ascii y) ∨
  (Ascii.compare x y = Lt ∧ (N_of_ascii x < N_of_ascii y)%N) ∨
  (Ascii.compare x y = Gt ∧ (N_of_ascii y < N_of_ascii x)%N).
Proof.
  unfold Ascii.compare.
  destruct (N.compare_spec (N_of_ascii x) (N_of_ascii y)); auto.
Qed.

Lemma string_leb_trans (a b c : string) :
  String.leb a b = true → String.leb b c = true → String.leb a c = true.
Proof.
  unfold String.leb. revert b c.
  induction a as [|x a IH]; intros [|y b] [|z c]; cbn [String.compare]; try done.
  destruct (ascii_compare_cases x y) as [[-> Hxy]|[[-> Hxy]|[-> Hxy]]];
    destruct (ascii_compare_cases y z) as [[-> Hyz]|[[-> Hyz]|[-> Hyz]]];
    try done;
    destruct (ascii_compare_cases x z) as [[-> Hxz]|[[-> Hxz]|[-> Hxz]]];
    try done; try (intros; exfalso; lia).
  apply IH.
Qed.

#[global] Instance str_le_total : Total str_le.
Proof. intros a b. apply String.leb_total. Qed.

#[global] Instance str_le_trans : Transitive str_le.
Proof. intros a b c. apply string_leb_trans. Qed.

#[global] Instance str_le_antisymm : AntiSymm (=) str_le.
Proof. intros a b. apply String.leb_antisym. Qed.

(** Two lists sort to the same list exactly when one is a rearrangement of
    the other. *)
Lemma sorted_eq_iff (l k : list string) : sorted l = sorted k ↔ l ≡ₚ k.
Proof.
  unfold sorted. split.
  - intros Heq. rewrite <- (merge_sort_Permutation str_le l), Heq.
    apply merge_sort_Permutation.
  - intros Hperm. apply (Sorted_unique str_le).
    + apply Sorted_merge_sort, _.
    + apply Sorted_merge_sort, _.
    + by rewrite !merge_sort_Permutation.
Qed.

Lemma strings_of_strings (names : list string) :
  strings_of (VStr <$> names) = Some names.
Proof. induction names as [|n names IH]; [done|]. cbn. by rewrite IH. Qed.

Lemma elem_of_keys (signings : gmap string string) (x : string) :
  x ∈ (map_to_list signings).*1 ↔ is_Some (signings !! x).
Proof.
  rewrite list_elem_of_fmap. split.
  - intros [[k v] [-> Hin]]. apply elem_of_map_to_list in Hin. eauto.
  - intros [v Hv]. exists (x, v). split; [done|]. by apply elem_of_map_to_list.
Qed.

Lemma keys_rearranged (signings : gmap string string) (names : list string) :
  names ≡ₚ (map_to_list signings).*1 ↔
  NoDup names ∧ ∀ x, x ∈ names ↔ is_Some (signings !! x).
Proof.
  pose proof (NoDup_fst_map_to_list signings) as Hkeys. split.
  - intros Hperm. split; [by rewrite Hperm|].
    intros x. by rewrite Hperm, elem_of_keys.
  - intros [Hnodup Hsame]. apply NoDup_Permutation; [done..|].
    intros x. by rewrite Hsame, elem_of_keys.
Qed.

(** C4 (as amended).  With a non-empty list of names in [meta.signers],
    [check_all_signed] compares the sorted list with the sorted keys of the
    signings: it passes exactly when the names are the signers with none
    repeated, in any order, and fails with [ValidationError] otherwise.
    Without [meta.signers], or with an empty list, it checks nothing. *)
Theorem check_all_signed_spec (signings : gmap string string)
    (meta : gmap string value) :
  (∀ names : list string,
     meta !! "signers" = Some (VList (VStr <$> names)) → names ≠ [] →
     (check_all_signed signings (VDict meta) = Ok () ↔
      NoDup names ∧ ∀ x, x ∈ names ↔ is_Some (signings !! x)) ∧
     (check_all_signed signings (VDict meta) = Ok () ∨
      check_all_signed signings (VDict meta)
      = Raise (ValidationError "no proper set of signatures"))) ∧
  (meta !! "signers" = None ∨ meta !! "signers" = Some (VList []) →
   check_all_signed signings (VDict meta) = Ok ()).
Proof.
  split.
  - intros names Hmeta Hne. unfold check_all_signed. cbn [dict_get].
    rewrite Hmeta. cbn.
    destruct names as [|n names]; [done|].
    change (VStr n :: (VStr <$> names)) with (VStr <$> (n :: names)).
    rewrite strings_of_strings, <- keys_rearranged, <- sorted_eq_iff.
    case_bool_decide; cbn; split; auto; done.
  - intros [Hmeta|Hmeta]; unfold check_all_signed; cbn [dict_get];
      by rewrite Hmeta.
Qed.

Lemma check_all_signed_spec_witness :
  check_all_signed (<["alice" := "sa"]> (<["bob" := "sb"]> ∅))
    (VDict (<["signers" := VList [VStr "bob"; VStr "alice"]]> ∅)) = Ok ().
Proof.
  apply (proj1 (check_all_signed_spec (<["alice" := "sa"]> (<["bob" := "sb"]> ∅))
                  (<["signers" := VList [VStr "bob"; VStr "alice"]]> ∅))
               ["bob"; "alice"]).
  - reflexivity.
  - discriminate.
  - split.
    + apply (bool_decide_unpack _). vm_compute. exact I.
    + intros x. rewrite !elem_of_cons, elem_of_nil.
      destruct (decide (x = "alice")) as [->|Ha].
      { rewrite lookup_insert_eq. split; eauto. }
      rewrite lookup_insert_ne by done.
      destruct (decide (x = "bob")) as [->|Hb].
      { rewrite lookup_insert_eq. split; eauto. }
      rewrite lookup_insert_ne, lookup_empty by done.
      split; [tauto|]. by intros [? ?].
Defined.

(** C4 (the claim as stated fails).  [alice] is the only signer and
    [meta.signers] names her twice: the two are equal as sets, and the check
    fails.  The failure, like the one for a name that did not sign, is a
    [ValidationError], not a [PermissionDenied]. *)
Lemma check_all_signed_counts_duplicates :
  let signings : gmap string string := <["alice" := "sa"]> ∅ in
  let twice := VDict (<["signers" := VList [VStr "alice"; VStr "alice"]]> ∅) in
  let other := VDict (<["signers" := VList [VStr "bob"]]> ∅) in
  (∀ x, x ∈ ["alice"; "alice"] ↔ is_Some (signings !! x)) ∧
  check_all_signed signings twice
  = Raise (ValidationError "no proper set of signatures") ∧
  check_all_signed signings other
  = Raise (ValidationError "no proper set of signatures").
Proof.
  intros signings twice other. split; [|split; vm_compute; reflexivity].
  intros x. unfold signings. rewrite !elem_of_cons, elem_of_nil.
  destruct (decide (x = "alice")) as [->|Hne].
  - rewrite lookup_insert_eq. split; eauto.
  - rewrite lookup_insert_ne, lookup_empty by done.
    split; [tauto|]. by intros [? ?].
Qed.

(** ** Sealing a negotiation *)

Lemma remove_dups_const {A} `{EqDecision A} (l : list A) (t : A) :
  l ≠ [] → (∀ x, x ∈ l → x = t) → remove_dups l = [t].
Proof.
  intros Hne Hall.
  pose proof (NoDup_remove_dups l) as Hnodup.
  assert (Hin : ∀ x, x ∈ remove_dups l → x = t).
  { intros x Hx. by apply Hall, elem_of_remove_dups. }
  assert (Ht : t ∈ remove_dups l).
  { destruct l as [|y l]; [done|]. apply elem_of_remove_dups.
    rewrite <- (Hall y) by by left. by left. }
  destruct (remove_dups l) as [|x [|y r]].
  - by apply elem_of_nil in Ht.
  - f_equal. apply Hin. by left.
  - exfalso. apply NoDup_cons in Hnodup as [Hfresh _]. apply Hfresh.
    rewrite (Hin x) by by left. rewrite <- (Hin y) at 1 by (right; by left).
    by left.
Qed.

Lemma mk_signings_loop_from (negotiation : Negotiation)
    (contributions : list Contribution) (rows : list Signing)
    (d : gmap string string) :
  foldl (λ acc contribution,
           (acc.1 ++ [signing_of negotiation contribution],
            <[c_signer_key_id contribution := c_signature contribution]> acc.2))
        (rows, d) contributions
  = (rows ++ (signing_of negotiation <$> contributions),
     foldl (λ d c, <[c_signer_key_id c := c_signature c]> d) d contributions).
Proof.
  revert rows d. induction contributions as [|c cs IH]; intros rows d.
  - cbn. by rewrite app_nil_r.
  - cbn [foldl fmap list_fmap]. rewrite IH. cbn [fst snd].
    by rewrite <- app_assoc.
Qed.

(** The loop of [mk_signings] makes one row per contribution, in order, and
    the dictionary of their signatures. *)
Lemma mk_signings_loop_eq (negotiation : Negotiation)
    (contributions : list Contribution) :
  mk_signings_loop negotiation contributions
  = (signing_of negotiation <$> contributions, signings_dict_of contributions).
Proof. unfold mk_signings_loop. by rewrite mk_signings_loop_from. Qed.

Lemma signings_dict_from_other (cs : list Contribution) (d : gmap string string)
    (k : string) :
  k ∉ c_signer_key_id <$> cs →
  foldl (λ d c, <[c_signer_key_id c := c_signature c]> d) d cs !! k = d !! k.
Proof.
  revert d. induction cs as [|c cs IH]; intros d Hk; [done|].
  cbn [foldl]. rewrite fmap_cons, not_elem_of_cons in Hk. destruct Hk as [Hne Hk].
  rewrite IH by done. by rewrite lookup_insert_ne.
Qed.

Lemma signings_dict_from_lookup (cs : list Contribution) (d : gmap string string)
    (c : Contribution) :
  NoDup (c_signer_key_id <$> cs) → c ∈ cs →
  foldl (λ d c, <[c_signer_key_id c := c_signature c]> d) d cs
    !! c_signer_key_id c = Some (c_signature c).
Proof.
  revert d. induction cs as [|c0 cs IH]; intros d Hnodup Hin.
  - by apply elem_of_nil in Hin.
  - rewrite fmap_cons, NoDup_cons in Hnodup. destruct Hnodup as [Hfresh Hnodup].
    cbn [foldl]. apply elem_of_cons in Hin as [->|Hin].
    + rewrite signings_dict_from_other by done. apply lookup_insert_eq.
    + by apply IH.
Qed.

Lemma signings_dict_from_keys (cs : list Contribution) (d : gmap string string)
    (k : string) :
  is_Some (foldl (λ d c, <[c_signer_key_id c := c_signature c]> d) d cs !! k) ↔
  k ∈ c_signer_key_id <$> cs ∨ is_Some (d !! k).
Proof.
  revert d. induction cs as [|c cs IH]; intros d.
  - cbn. rewrite elem_of_nil. tauto.
  - cbn [foldl]. rewrite IH, fmap_cons, elem_of_cons.
    destruct (decide (k = c_signer_key_id c)) as [->|Hne].
    + rewrite lookup_insert_eq. split; eauto.
    + rewrite lookup_insert_ne by done. tauto.
Qed.

(** Under the invariant the latest contributions to a negotiation come
    from distinct signers. *)
Lemma latest_unique_NoDup (db : DB) (negotiation_id : string) :
  latest_unique db →
  NoDup (c_signer_key_id <$>
           filter (λ c, c_negotiation c = negotiation_id ∧ c_latest c = true)
                  (contributions db)).
Proof.
  unfold latest_unique. generalize (contributions db). intros rows.
  induction rows as [|c rows IH]; intros Hinv; [constructor|].
  assert (Hrows : ∀ n s,
            (length (filter (is_latest_of n s) rows) ≤ 1)%nat).
  { intros n s. specialize (Hinv n s). rewrite filter_cons in Hinv.
    destruct (decide _); cbn [length] in Hinv; lia. }
  rewrite filter_cons. destruct (decide _) as [[Hn Hl]|_]; [|by apply IH].
  rewrite fmap_cons. apply NoDup_cons. split; [|by apply IH].
  intros [c' [Hsigner [[Hn' Hl'] Hin]%list_elem_of_filter]]%list_elem_of_fmap.
  specialize (Hinv negotiation_id (c_signer_key_id c)).
  rewrite filter_cons_True in Hinv by done.
  assert (Hfound : c' ∈ filter (is_latest_of negotiation_id (c_signer_key_id c))
                              rows).
  { apply list_elem_of_filter. by split. }
  destruct (filter (is_latest_of negotiation_id (c_signer_key_id c)) rows);
    [by apply elem_of_nil in Hfound|].
  cbn [length] in Hinv. lia.
Qed.

(** C5. When the latest contributions of a negotiation all carry the text
    [text], and [text] decodes to a document whose
    [meta.accept] is true, closure evaluation seals the negotiation.  The
    row stored under the id of the negotiation has the text [text], the
    status [NEG_DONE], the timestamp, and as consensus id [hash_string] of
    the canonical encoding of the dictionary of the timestamp, the
    negotiation id, the text and the signer-to-signature dictionary; the
    other negotiations are as they were.  The signings are the earlier ones
    followed by one row per latest contribution, in order, each with the id
    of the negotiation and the signer and the signature of its contribution
    (the signers are distinct, by the invariant on [latest]).  Nothing else
    is written. *)
Theorem check_close_negotiation_seals `{CanonicalCodec} `{Hashing}
    (now : datetime) (negotiation : Negotiation) (db : DB) (text : string)
    (document meta : gmap string value) (accept : value) :
  let latests :=
    filter (λ c, c_negotiation c = n_id negotiation ∧ c_latest c = true)
           (contributions db) in
  latests ≠ [] →
  (∀ c, c ∈ latests → c_text c = text) →
  latest_unique db →
  from_canonical (from_unicode text) = Ok (VDict document) →
  document !! "meta" = Some (VDict meta) →
  meta !! "accept" = Some accept →
  truthy accept = true →
  NoDup (c_signer_key_id <$> latests) ∧
  ∃ (signings_dict : gmap string string) (db' : DB),
    (∀ c, c ∈ latests →
          signings_dict !! c_signer_key_id c = Some (c_signature c)) ∧
    (∀ k, is_Some (signings_dict !! k) ↔ k ∈ c_signer_key_id <$> latests) ∧
    check_close_negotiation now negotiation db = (Ok (), db') ∧
    negotiations db'
    = <[n_id negotiation :=
          {| n_id := n_id negotiation; n_status := NEG_DONE;
             n_text := Some text; n_timestamp := Some now;
             n_consensus :=
               Some (hash_string (to_canonical
                 (VDict (<["timestamp" := VStr (isoformat now)]>
                        (<["negotiation_id" := VStr (n_id negotiation)]>
                        (<["text" := VStr text]>
                        (<["signings" := VDict (VStr <$> signings_dict)]>
                         ∅))))))) |}]>
        (negotiations db) ∧
    signings db'
    = signings db ++
      ((λ c, {| s_negotiation := n_id negotiation;
                s_signer_key_id := c_signer_key_id c;
                s_signature := c_signature c |}) <$> latests) ∧
    contributions db' = contributions db ∧
    peers db' = peers db ∧ owners db' = owners db ∧
    endpoints db' = endpoints db ∧ messages db' = messages db.
Proof.
  intros latests Hne Htext Hinv Hdecode Hmeta Haccept Htruthy.
  assert (Hnodup : NoDup (c_signer_key_id <$> latests)).
  { by apply latest_unique_NoDup. }
  split; [done|].
  assert (Htexts : remove_dups (c_text <$> latests) = [text]).
  { apply remove_dups_const.
    - by destruct latests.
    - intros x [c [-> Hc]]%list_elem_of_fmap. by apply Htext. }
  assert (Hrun : ∃ db', check_close_negotiation now negotiation db = (Ok (), db')
                        ∧ db' = (_close_negotiation now negotiation latests db).2).
  { unfold check_close_negotiation, get_latest_contributions, query.
    unfold mbind at 1. unfold M_bind at 1. fold latests.
    rewrite Htexts, Hdecode.
    unfold mbind, M_bind, lift. cbn [dict_get].
    rewrite Hmeta. cbn [default from_option id dict_get].
    rewrite Haccept. cbn [default from_option id]. rewrite Htruthy.
    unfold _close_negotiation, get_text, mk_signings.
    rewrite Htexts, mk_signings_loop_eq.
    unfold mbind, M_bind, lift, write, mret, M_ret. cbn [fst snd]. eauto. }
  destruct Hrun as (db' & Hrun & Hdb').
  exists (signings_dict_of latests), db'. split; [|split; [|split; [done|]]].
  - intros c Hc. by apply signings_dict_from_lookup.
  - intros k. unfold signings_dict_of. rewrite signings_dict_from_keys.
    rewrite lookup_empty. split; [intros [?|[? ?]]; done|auto].
  - subst db'. unfold _close_negotiation, get_text, mk_signings.
    rewrite Htexts, mk_signings_loop_eq.
    unfold mbind, M_bind, lift, write, mret, M_ret. cbn.
    split_and!; reflexivity.
Qed.

(** ** Contributions *)

Lemma length_filter_fmap_iff {A} (P : A → Prop) `{∀ x, Decision (P x)}
    (f : A → A) (l : list A) :
  (∀ x, P (f x) ↔ P x) →
  length (filter P (f <$> l)) = length (filter P l).
Proof.
  intros Hiff. induction l as [|x l IH]; [done|].
  rewrite fmap_cons, !filter_cons.
  pose proof (Hiff x) as Hx.
  destruct (decide (P (f x))), (decide (P x)); cbn [length];
    rewrite ?IH; tauto.
Qed.

Lemma filter_none {A} (P : A → Prop) `{∀ x, Decision (P x)} (l : list A) :
  (∀ x, x ∈ l → ¬ P x) → filter P l = [].
Proof.
  intros Hnone. induction l as [|x l IH]; [done|].
  rewrite filter_cons_False by (apply Hnone; by left).
  apply IH. intros y Hy. apply Hnone. by right.
Qed.

(** After the update no earlier contribution of the signer to the
    negotiation is [latest]. *)
Lemma clear_latest_cleared (negotiation_id key_id : string)
    (rows : list Contribution) :
  filter (is_latest_of negotiation_id key_id)
         (clear_latest negotiation_id key_id rows) = [].
Proof.
  apply filter_none. intros c' [c [-> Hc]]%list_elem_of_fmap.
  unfold is_latest_of. destruct (decide _) as [[Hn Hk]|Hother]; cbn.
  - by intros (_ & _ & ?).
  - intros (Hn & Hk & _). by apply Hother.
Qed.

(** The latest contributions of the other signers and negotiations are as
    many as before. *)
Lemma clear_latest_others (negotiation_id key_id n s : string)
    (rows : list Contribution) :
  (n, s) ≠ (negotiation_id, key_id) →
  length (filter (is_latest_of n s) (clear_latest negotiation_id key_id rows))
  = length (filter (is_latest_of n s) rows).
Proof.
  intros Hother. apply length_filter_fmap_iff. intros c.
  unfold is_latest_of. destruct (decide _) as [[Hn Hk]|_]; cbn; [|done].
  split; intros (Hn' & Hk' & _); exfalso; apply Hother; congruence.
Qed.

Lemma latest_unique_contributed (db : DB) (contrib : Contribution) :
  c_latest contrib = true →
  latest_unique db →
  latest_unique
    (set_contributions (λ rows, rows ++ [contrib])
       (set_contributions
          (clear_latest (c_negotiation contrib) (c_signer_key_id contrib)) db)).
Proof.
  intros Hlatest Hinv n s. cbn [contributions set_contributions].
  rewrite filter_app, length_app.
  destruct (decide ((n, s) = (c_negotiation contrib, c_signer_key_id contrib)))
    as [[= -> ->]|Hother].
  - rewrite clear_latest_cleared. cbn [length]. 
    pose proof (length_filter
                  (is_latest_of (c_negotiation contrib) (c_signer_key_id contrib))
                  [contrib]) as Hle.
    cbn [length] in Hle. lia.
  - rewrite clear_latest_others by done.
    rewrite (filter_none _ [contrib]).
    + cbn [length]. pose proof (Hinv n s). lia.
    + intros c ->%list_elem_of_singleton (Hn & Hs & _).
      apply Hother. congruence.
Qed.

(** Closure evaluation writes signings and the negotiation, never a
    contribution. *)
Lemma check_close_negotiation_contributions `{CanonicalCodec} `{Hashing}
    (now : datetime) (negotiation : Negotiation) (db : DB) :
  contributions (check_close_negotiation now negotiation db).2
  = contributions db.
Proof.
  unfold check_close_negotiation, get_latest_contributions, query.
  unfold mbind at 1. unfold M_bind at 1.
  destruct (remove_dups _) as [|text [|? ?]]; try done.
  unfold mbind, M_bind, lift.
  destruct (from_canonical _) as [unpacked|]; [|done].
  destruct (dict_get unpacked _ _) as [meta|]; [|done].
  destruct (dict_get meta _ _) as [accept|]; [|done].
  destruct (truthy accept); [|done].
  unfold _close_negotiation, mbind, M_bind, lift.
  destruct (get_text _); [|done].
  unfold mk_signings. destruct (mk_signings_loop _ _). done.
Qed.

(** What a call leaves in the contributions table: either nothing was
    written and the call raised, or the signer's rows were superseded and one
    [latest] row was added (closure evaluation may still raise after that). *)
Lemma contribute_contributions `{CanonicalCodec} `{Hashing}
    `{SignatureVerifier} (now : datetime) (negotiation : Negotiation)
    (request : value) (key_data : option string) (db : DB) :
  let outcome := contribute_to_negotiation now negotiation request key_data db in
  (contributions outcome.2 = contributions db ∧ ∃ err, outcome.1 = Raise err) ∨
  ∃ contrib,
    c_latest contrib = true ∧
    c_negotiation contrib = n_id negotiation ∧
    contributions outcome.2
    = clear_latest (n_id negotiation) (c_signer_key_id contrib)
                   (contributions db) ++ [contrib] ∧
    (outcome.1 = Ok contrib ∨ ∃ err, outcome.1 = Raise err).
Proof.
  intros outcome. subst outcome. unfold contribute_to_negotiation.
  destruct (negb _); [left; cbn; eauto|].
  unfold mbind, M_bind, lift.
  destruct (subscript request "text") as [text|]; [|left; cbn; eauto].
  destruct (subscript request "signature") as [signature|]; [|left; cbn; eauto].
  destruct (subscript request "signer_key_id") as [signer_key_id|];
    [|left; cbn; eauto].
  destruct (as_str text) as [text'|]; [|left; cbn; eauto].
  destruct (as_str signature) as [signature'|]; [|left; cbn; eauto].
  destruct (backend_verify text' signature' key_data) as [valid key_id].
  cbv beta iota.
  destruct (negb valid); [left; cbn; eauto|].
  destruct (negb (eq_str signer_key_id key_id)); [left; cbn; eauto|].
  unfold mbind, M_bind, write, mret, M_ret.
  set (contrib := {| c_negotiation := n_id negotiation; c_text := text';
                     c_signer_key_id := key_id; c_signature := signature';
                     c_latest := true |}).
  set (db' := set_contributions (λ rows, rows ++ [contrib])
                (set_contributions (clear_latest (n_id negotiation) key_id) db)).
  pose proof (check_close_negotiation_contributions now negotiation db') as Hsame.
  right. exists contrib.
  destruct (check_close_negotiation now negotiation db') as [[[]|err] db''];
    cbn [fst snd] in *; rewrite Hsame; split_and!; eauto.
Qed.

Lemma latest_unique_same_contributions (db db' : DB) :
  contributions db' = contributions db → latest_unique db → latest_unique db'.
Proof. intros Hsame Hinv n s. rewrite Hsame. apply Hinv. Qed.

Lemma latest_unique_superseded (db db' : DB) (contrib : Contribution) :
  c_latest contrib = true →
  contributions db'
  = clear_latest (c_negotiation contrib) (c_signer_key_id contrib)
                 (contributions db) ++ [contrib] →
  latest_unique db → latest_unique db'.
Proof.
  intros Hlatest Hrows Hinv.
  eapply latest_unique_same_contributions;
    [|by apply (latest_unique_contributed db contrib)].
  by rewrite Hrows.
Qed.

Lemma contribute_latest_unique `{CanonicalCodec} `{Hashing}
    `{SignatureVerifier} (now : datetime) (negotiation : Negotiation)
    (request : value) (key_data : option string) (db : DB) :
  latest_unique db →
  latest_unique
    (contribute_to_negotiation now negotiation request key_data db).2.
Proof.
  intros Hinv.
  destruct (contribute_contributions now negotiation request key_data db)
    as [[Hsame _]|(contrib & Hlatest & Hn & Hrows & _)].
  - by eapply latest_unique_same_contributions.
  - eapply (latest_unique_superseded db _ contrib); [done| |done].
    by rewrite Hn.
Qed.

(** C8. [contribute_to_negotiation] keeps at most one [latest] contribution
    per negotiation and signer: whatever its outcome, the invariant holds
    afterwards.  When it succeeds, the contributions are the earlier rows in
    their order, each one kept as it was except that the rows of the signer
    in the negotiation have [latest] set to false, followed by the one new
    row; the new row is [latest], belongs to the negotiation, and is the only
    [latest] row of that signer in that negotiation. *)
Theorem contribute_keeps_latest_unique `{CanonicalCodec} `{Hashing}
    `{SignatureVerifier} (now : datetime) (negotiation : Negotiation)
    (request : value) (key_data : option string) (db : DB) :
  latest_unique db →
  let outcome := contribute_to_negotiation now negotiation request key_data db in
  latest_unique outcome.2 ∧
  ∀ contrib, outcome.1 = Ok contrib →
    c_latest contrib = true ∧
    c_negotiation contrib = n_id negotiation ∧
    contributions outcome.2
    = ((λ c, if decide (c_negotiation c = n_id negotiation ∧
                        c_signer_key_id c = c_signer_key_id contrib)
             then {| c_negotiation := c_negotiation c; c_text := c_text c;
                     c_signer_key_id := c_signer_key_id c;
                     c_signature := c_signature c; c_latest := false |}
             else c) <$> contributions db) ++ [contrib] ∧
    filter (λ c, c_negotiation c = n_id negotiation ∧
                 c_signer_key_id c = c_signer_key_id contrib ∧
                 c_latest c = true)
           (contributions outcome.2) = [contrib].
Proof.
  intros Hinv outcome. split; [by apply contribute_latest_unique|].
  intros contrib Hok. subst outcome.
  destruct (contribute_contributions now negotiation request key_data db)
    as [[_ [err Herr]]|(contrib' & Hlatest & Hn & Hrows & Hresult)];
    [congruence|].
  destruct Hresult as [Hok'|[err Herr]]; [|congruence].
  assert (contrib' = contrib) as -> by congruence.
  split_and!; [done|done|by rewrite Hrows|].
  rewrite Hrows, filter_app.
  pose proof (clear_latest_cleared (n_id negotiation) (c_signer_key_id contrib)
                (contributions db)) as Hcleared.
  unfold is_latest_of in Hcleared. rewrite Hcleared.
  by rewrite filter_cons_True.
Qed.

(** X22. Hence the invariant holds in every database that contributions
    build from the empty one, whatever their order and outcome. *)
Lemma reachable_latest_unique `{CanonicalCodec} `{Hashing} `{SignatureVerifier}
    (db : DB) :
  contributed db → latest_unique db.
Proof.
  induction 1 as [|now negotiation request key_data db _ IH].
  - intros n s. cbn. lia.
  - by apply contribute_latest_unique.
Qed.

(** ** Updating an endpoint *)

Lemma eq_str_true (v : value) (s : string) : eq_str v s = true → v = VStr s.
Proof.
  destruct v; try done. cbn. by intros ->%String.eqb_eq.
Qed.

(** C7. A partial update whose [info.on_last_consensus_id] is missing, or
    is not the consensus id recorded on the endpoint, is rejected before any
    transition is applied: the handler raises and the database is as it
    was. *)
Theorem partial_update_needs_last_consensus `{CanonicalCodec} `{Hashing}
    (request : Request) (endpoint : Endpoint) (db : DB) :
  ¬ (∃ id, e_last_consensus_id endpoint = Some id ∧
           on_last_consensus_id_of request = Some (VStr id)) →
  ∃ err, EndpointView_partial_update_logic request endpoint db = (Raise err, db).
Proof.
  intros Hstale. unfold EndpointView_partial_update_logic, on_last_consensus_id_of in *.
  unfold mbind, M_bind, lift, raise.
  destruct (r_data request) as [| | | | |request_data]; cbn [dict_get]; eauto.
  destruct (validate_operation _ _ _) as [[]|]; eauto.
  destruct (require_by_consensus _) as [[consensus_id consensus_body]|]; eauto.
  destruct (request_data !! "info") as [info|] eqn:Hinfo;
    cbn [default from_option id dict_get].
  2: { rewrite lookup_empty. cbn. eauto. }
  destruct info as [| | | | |info]; cbn [dict_get]; eauto.
  destruct (info !! "on_last_consensus_id") as [on_last|] eqn:Hlast;
    cbn [default from_option id]; [|cbn; eauto].
  destruct (is_None on_last); eauto.
  destruct (subscript _ _) as [endpoint_id|]; eauto.
  destruct (negb (eq_str endpoint_id _)); eauto.
  unfold get_last_consensus_id.
  destruct (e_last_consensus_id endpoint) as [recorded|]; cbn [negb]; eauto.
  destruct (eq_str on_last recorded) eqn:Heq; cbn [negb]; eauto.
  apply eq_str_true in Heq as ->. exfalso. apply Hstale. eauto.
Qed.

(** ** The handlers on concrete requests *)

(** A partial update that names the recorded consensus goes through: the
    endpoint is closed and the authorizing consensus is recorded on it. *)
Example partial_update_closes :
  let E := Sample.endpoint_E OPEN "c0" in
  let db := Sample.sealed_by_alice "close E" E in
  (λ e, (e_status e, e_last_consensus_id e)) <$>
    (@EndpointView_partial_update_logic Sample.codec Sample.hashing
       (Sample.update_request "CLOSED" "c0") E db).1
  = Ok (CLOSED, Some "c1").
Proof. vm_compute. reflexivity. Qed.

(** C1, through the whole handler: an authorized request for [PROCESSED]
    is applied to an endpoint that is still [OPEN], and to one that is
    [PROCESSED] already. *)
Example partial_update_processes_open_endpoint :
  let E := Sample.endpoint_E OPEN "c0" in
  let db := Sample.sealed_by_alice "process E" E in
  e_status <$>
    (@EndpointView_partial_update_logic Sample.codec Sample.hashing
       (Sample.update_request "PROCESSED" "c0") E db).1
  = Ok PROCESSED.
Proof. vm_compute. reflexivity. Qed.

Example partial_update_processes_processed_endpoint :
  let E := Sample.endpoint_E PROCESSED "c0" in
  let db := Sample.sealed_by_alice "process E" E in
  e_status <$>
    (@EndpointView_partial_update_logic Sample.codec Sample.hashing
       (Sample.update_request "PROCESSED" "c0") E db).1
  = Ok PROCESSED.
Proof. vm_compute. reflexivity. Qed.

Lemma partial_update_needs_last_consensus_witness :
  let E := Sample.endpoint_E OPEN "c9" in
  let db := Sample.sealed_by_alice "close E" E in
  ∃ err, @EndpointView_partial_update_logic Sample.codec Sample.hashing
           (Sample.update_request "CLOSED" "c0") E db = (Raise err, db).
Proof.
  intros E db.
  apply (@partial_update_needs_last_consensus Sample.codec Sample.hashing).
  intros [id [Hrecorded Hrequested]].
  vm_compute in Hrecorded. vm_compute in Hrequested. congruence.
Defined.

Lemma latest_unique_pair (c1 c2 : Contribution) (db : DB) :
  contributions db = [c1; c2] →
  c_signer_key_id c1 ≠ c_signer_key_id c2 → latest_unique db.
Proof.
  intros Hrows Hsigners n s. rewrite Hrows, !filter_cons, filter_nil.
  destruct (decide (is_latest_of n s c1)) as [(_ & H1 & _)|];
    destruct (decide (is_latest_of n s c2)) as [(_ & H2 & _)|];
    cbn [length]; try lia.
  congruence.
Qed.

(** [alice] and [bob] have each a latest draft; [alice] contributes a new
    text.  Her draft is kept and is no longer [latest], the draft of [bob]
    is untouched, and the new row comes last. *)
Lemma contribute_keeps_latest_unique_witness :
  let db := Sample.negotiating [Sample.contribution_of "alice" "draft";
                                Sample.contribution_of "bob" "draft"] in
  let outcome :=
    @contribute_to_negotiation Sample.codec Sample.hashing Sample.verifier
      Sample.midnight Sample.open_N
      (Sample.contribution_request "alice" "close E") (Some "alice") db in
  latest_unique outcome.2 ∧
  (λ c, (c_signer_key_id c, c_text c, c_latest c)) <$> contributions outcome.2
  = [("alice", "draft", false); ("bob", "draft", true);
     ("alice", "close E", true)].
Proof.
  intros db outcome.
  pose proof (@contribute_keeps_latest_unique Sample.codec Sample.hashing
                Sample.verifier Sample.midnight Sample.open_N
                (Sample.contribution_request "alice" "close E") (Some "alice")
                db) as Hkept.
  cbv zeta in Hkept. fold outcome in Hkept.
  destruct Hkept as [Hinv Hrows].
  - by apply (latest_unique_pair (Sample.contribution_of "alice" "draft")
                (Sample.contribution_of "bob" "draft")).
  - split; [exact Hinv|].
    destruct (Hrows (Sample.contribution_of "alice" "close E"))
      as (_ & _ & Hcontributions & _).
    + vm_compute. reflexivity.
    + rewrite Hcontributions. vm_compute. reflexivity.
Defined.

(** The scenario of the spec: [alice] replaces her draft by a text that she
    accepts; the draft is kept and is no longer [latest], and the
    negotiation is sealed on the new text. *)
Example alice_accepts :
  let outcome :=
    @contribute_to_negotiation Sample.codec Sample.hashing Sample.verifier
      Sample.midnight Sample.open_N
      (Sample.contribution_request "alice" "close E") (Some "alice")
      (Sample.negotiating [Sample.contribution_of "alice" "draft"]) in
  (λ c, (c_text c, c_latest c)) <$> contributions outcome.2
  = [("draft", false); ("close E", true)] ∧
  (λ n, (n_status n, n_text n)) <$> negotiations outcome.2 !! "N"
  = Some (NEG_DONE, Some "close E") ∧
  signings outcome.2
  = [ {| s_negotiation := "N"; s_signer_key_id := "alice";
         s_signature := "signed-by-alice" |} ].
Proof. vm_compute. done. Qed.

(** [alice] and [bob] have both signed the accepted text: the negotiation
    is sealed on it and each of them has a signing. *)
Lemma check_close_negotiation_seals_witness :
  ∃ db', @check_close_negotiation Sample.codec Sample.hashing Sample.midnight
           Sample.open_N
           (Sample.negotiating [Sample.contribution_of "alice" "close E";
                                Sample.contribution_of "bob" "close E"])
         = (Ok (), db') ∧
         signings db'
         = [ {| s_negotiation := "N"; s_signer_key_id := "alice";
                s_signature := "signed-by-alice" |};
             {| s_negotiation := "N"; s_signer_key_id := "bob";
                s_signature := "signed-by-bob" |} ] ∧
         (λ n, (n_status n, n_text n, n_timestamp n)) <$> negotiations db' !! "N"
         = Some (NEG_DONE, Some "close E", Some Sample.midnight).
Proof.
  destruct (@check_close_negotiation_seals Sample.codec Sample.hashing
              Sample.midnight Sample.open_N
              (Sample.negotiating [Sample.contribution_of "alice" "close E";
                                   Sample.contribution_of "bob" "close E"])
              "close E"
              (<["body" := VDict (<["data" := VDict (<["status" := VStr "CLOSED"]> ∅)]>
                                 (<["info" := VDict ∅]> ∅))]>
               (<["meta" := VDict (<["accept" := VBool true]> ∅)]> ∅))
              (<["accept" := VBool true]> ∅) (VBool true))
    as (_ & signings_dict & db' & _ & _ & Hsealed & Hnegotiations & Hsignings
        & _).
  - vm_compute. discriminate.
  - apply Forall_forall. apply (bool_decide_unpack _). vm_compute. exact I.
  - by apply (latest_unique_pair (Sample.contribution_of "alice" "close E")
                (Sample.contribution_of "bob" "close E")).
  - reflexivity.
  - reflexivity.
  - reflexivity.
  - reflexivity.
  - exists db'. split; [exact Hsealed|]. split.
    + rewrite Hsignings. vm_compute. reflexivity.
    + rewrite Hnegotiations.
      by rewrite (lookup_insert_eq (M:=gmap string)).
Defined.

Lemma check_permission_spec_witness :
  check_permission "P" ["alice"; "bob"]
    (<["alice" := "sa"]> (<["bob" := "sb"]> ∅)) "bob" = Ok ().
Proof.
  apply (proj1 (check_permission_spec "P" ["alice"; "bob"]
                  (<["alice" := "sa"]> (<["bob" := "sb"]> ∅)) "bob")).
  - discriminate.
  - split.
    + apply (bool_decide_unpack _). vm_compute. exact I.
    + apply Forall_forall. apply (bool_decide_unpack _). vm_compute. exact I.
Defined.

(** * Further properties *)

(** ** Effects of the handlers *)

Lemma bind_cases {A B} (m : M A) (f : A → M B) (db db' : DB) (r : result B) :
  (m ≫= f) db = (r, db') →
  (∃ err, m db = (Raise err, db') ∧ r = Raise err) ∨
  (∃ a db1, m db = (Ok a, db1) ∧ f a db1 = (r, db')).
Proof.
  unfold mbind, M_bind. destruct (m db) as [[a|err] db1]; intros Hrun.
  - right. eauto.
  - left. injection Hrun as <- <-. eauto.
Qed.

Lemma bind_ok {A B} (m : M A) (f : A → M B) (db db' : DB) (b : B) :
  (m ≫= f) db = (Ok b, db') →
  ∃ a db1, m db = (Ok a, db1) ∧ f a db1 = (Ok b, db').
Proof.
  intros [(err & _ & ?)|?]%bind_cases; [discriminate|done].
Qed.

Lemma preserves_bind {A B} (R : relation DB) `{!Transitive R}
    (m : M A) (f : A → M B) :
  preserves R m → (∀ a, preserves R (f a)) → preserves R (m ≫= f).
Proof.
  intros Hm Hf db r db' [(err & Hrun & _)|(a & db1 & Hrun & Hnext)]%bind_cases.
  - by eapply Hm.
  - etransitivity; [by eapply Hm|by eapply Hf].
Qed.

Lemma preserves_lift {A} (R : relation DB) `{!Reflexive R} (r : result A) :
  preserves R (lift r).
Proof. intros db r' db' [= _ <-]. reflexivity. Qed.

Lemma preserves_raise {A} (R : relation DB) `{!Reflexive R} (e : exn) :
  preserves R (@raise A e).
Proof. intros db r' db' [= _ <-]. reflexivity. Qed.

Lemma preserves_ret {A} (R : relation DB) `{!Reflexive R} (a : A) :
  preserves R (mret a).
Proof. intros db r' db' [= _ <-]. reflexivity. Qed.

Lemma preserves_query {A} (R : relation DB) `{!Reflexive R} (f : DB → A) :
  preserves R (query f).
Proof. intros db r' db' [= _ <-]. reflexivity. Qed.

Lemma preserves_get_instance {A} (R : relation DB) `{!Reflexive R}
    (table : DB → gmap string A) (k : value) :
  preserves R (get_instance table k).
Proof.
  intros db r db'. unfold get_instance.
  destruct k; try (intros [= _ <-]; reflexivity).
  destruct (table db !! s); intros [= _ <-]; reflexivity.
Qed.

Lemma preserves_if {A} (R : relation DB) (b : bool) (m1 m2 : M A) :
  preserves R m1 → preserves R m2 → preserves R (if b then m1 else m2).
Proof. by destruct b. Qed.

#[local] Instance unchanged_refl : Reflexive (λ db db' : DB, db' = db).
Proof. by intros db. Qed.

#[local] Instance unchanged_trans : Transitive (λ db db' : DB, db' = db).
Proof. intros db1 db2 db3. congruence. Qed.

(** Proves [preserves R m] for a handler made of reads and checks. *)
Ltac preserves_steps :=
  repeat first
    [ apply preserves_lift; apply _
    | apply preserves_raise; apply _
    | apply preserves_ret; apply _
    | apply preserves_query; apply _
    | apply preserves_get_instance; apply _
    | apply preserves_if
    | apply preserves_bind; [apply _| |intros ?]
    | match goal with |- preserves _ (let '(_, _) := ?p in _) => destruct p end
    | match goal with |- preserves _ (match ?p with (_, _) => _ end) =>
        destruct p end ].

Lemma read_only_raises_unchanged {A} (m : M A) :
  read_only m → raises_unchanged m.
Proof. intros Hm db err db' Hrun. by eapply Hm. Qed.

Lemma raises_unchanged_bind {A B} (m : M A) (f : A → M B) :
  read_only m → (∀ a, raises_unchanged (f a)) → raises_unchanged (m ≫= f).
Proof.
  intros Hm Hf db err db' [(? & Hrun & _)|(a & db1 & Hrun & Hnext)]%bind_cases.
  - by eapply Hm.
  - apply Hm in Hrun as ->. by eapply Hf.
Qed.

Lemma raises_unchanged_if {A} (b : bool) (m1 m2 : M A) :
  raises_unchanged m1 → raises_unchanged m2 →
  raises_unchanged (if b then m1 else m2).
Proof. by destruct b. Qed.

(** ** The consensus authorizer *)

Lemma retrieve_consensus_read_only `{CanonicalCodec} (consensus_id : value) :
  read_only (retrieve_consensus consensus_id).
Proof.
  intros db r db'. unfold retrieve_consensus.
  destruct (filter _ _) as [|n [|? ?]]; by intros [= _ <-].
Qed.

Lemma handle_consensus_read_only `{CanonicalCodec} (expected_body : string)
    (consensus_id : value) :
  read_only (handle_consensus expected_body consensus_id).
Proof.
  unfold handle_consensus, read_only.
  apply preserves_bind; [apply _|apply retrieve_consensus_read_only|].
  intros consensus. preserves_steps.
Qed.

(** A consensus id that is accepted is a string, and accepting writes
    nothing. *)
Lemma handle_consensus_ok_id `{CanonicalCodec} (expected_body : string)
    (consensus_id : value) (db db' : DB) (signings : gmap string string) :
  handle_consensus expected_body consensus_id db = (Ok signings, db') →
  db' = db ∧ ∃ id, consensus_id = VStr id.
Proof.
  intros Hrun.
  pose proof (handle_consensus_read_only _ _ _ _ _ Hrun) as ->.
  split; [done|]. unfold handle_consensus in Hrun.
  apply bind_ok in Hrun as (consensus & db1 & Hfound & _).
  unfold retrieve_consensus in Hfound.
  destruct (filter _ _) as [|n [|? ?]] eqn:Hfilter; try discriminate.
  assert (Hn : n ∈ filter (has_consensus consensus_id)
                          (map_to_list (negotiations db)).*2).
  { rewrite Hfilter. by left. }
  apply list_elem_of_filter in Hn as [Hhas _].
  unfold has_consensus in Hhas.
  destruct (n_consensus n) as [id|]; [|done].
  exists id. destruct consensus_id; try done.
  cbn in Hhas. by apply String.eqb_eq in Hhas as ->.
Qed.

(** X1. [handle_consensus] never writes, and what it returns is backed by
    a sealed negotiation: the consensus id is the id of a negotiation in the
    database, whose text decodes to a document with the expected canonical
    body and a true [meta.accept], whose signings pass [check_all_signed],
    and whose signings are the ones returned. *)
Theorem handle_consensus_sound `{CanonicalCodec} (expected_body : string)
    (consensus_id : value) (db db' : DB) (signings : gmap string string) :
  handle_consensus expected_body consensus_id db = (Ok signings, db') →
  db' = db ∧
  ∃ (key id text : string) (n : Negotiation) (document body meta accept : value),
    consensus_id = VStr id ∧
    negotiations db !! key = Some n ∧
    n_consensus n = Some id ∧ n_text n = Some text ∧
    from_canonical (from_unicode text) = Ok document ∧
    dict_get document "body" (VDict ∅) = Ok body ∧
    to_canonical body = expected_body ∧
    dict_get document "meta" (VDict ∅) = Ok meta ∧
    dict_get meta "accept" (VBool false) = Ok accept ∧
    truthy accept = true ∧
    check_all_signed signings meta = Ok () ∧
    signings = consensus_signings (to_consensus_dict n db).
Proof.
  intros Hrun.
  pose proof (handle_consensus_read_only _ _ _ _ _ Hrun) as ->.
  split; [done|]. unfold handle_consensus in Hrun.
  apply bind_ok in Hrun as (consensus & db1 & Hfound & Hrun).
  unfold retrieve_consensus in Hfound.
  destruct (filter _ _) as [|n [|? ?]] eqn:Hfilter; try discriminate.
  injection Hfound as <- <-.
  assert (Hn : n ∈ filter (has_consensus consensus_id)
                          (map_to_list (negotiations db)).*2).
  { rewrite Hfilter. by left. }
  apply list_elem_of_filter in Hn as [Hhas Hn].
  apply list_elem_of_fmap in Hn as [[key n'] [-> Hn]].
  apply elem_of_map_to_list in Hn. cbn [snd] in *.
  unfold has_consensus in Hhas.
  destruct (n_consensus n') as [id|] eqn:Hid; [|done].
  apply eq_str_true in Hhas as ->.
  apply bind_ok in Hrun as ([body meta] & db1 & Hbm & Hrun).
  injection Hbm as Hbm <-.
  apply bind_ok in Hrun as ([] & db1 & Hbodies & Hrun).
  injection Hbodies as Hbodies <-.
  apply bind_ok in Hrun as ([] & db1 & Haccepted & Hrun).
  injection Haccepted as Haccepted <-.
  apply bind_ok in Hrun as ([] & db1 & Hsigned & Hrun).
  injection Hsigned as Hsigned <-.
  injection Hrun as <-.
  unfold get_body_and_meta in Hbm. cbn [consensus_text to_consensus_dict] in Hbm.
  destruct (n_text n') as [text|] eqn:Htext; [|discriminate]. cbn in Hbm.
  destruct (from_canonical (from_unicode text)) as [document|] eqn:Hdoc;
    [|discriminate]. cbn in Hbm.
  destruct (dict_get document "body" (VDict ∅)) as [body'|] eqn:Hbody;
    [|discriminate]. cbn in Hbm.
  destruct (dict_get document "meta" (VDict ∅)) as [meta'|] eqn:Hmeta;
    [|discriminate]. cbn in Hbm. injection Hbm as <- <-.
  unfold check_bodies_equal in Hbodies.
  destruct (String.eqb_spec expected_body (to_canonical body')) as [Heq|];
    [|discriminate].
  unfold check_accepted in Haccepted.
  destruct (dict_get meta' "accept" (VBool false)) as [accept|] eqn:Haccept;
    [|discriminate]. cbn in Haccepted.
  destruct (truthy accept) eqn:Htruthy; [|discriminate].
  exists key, id, text, n', document, body', meta', accept.
  by split_and!.
Qed.

(** X2. A consensus id that no negotiation carries is not found:
    [handle_consensus] raises [Http404] and leaves the database alone. *)
Theorem handle_consensus_unknown `{CanonicalCodec} (expected_body id : string)
    (db : DB) :
  (∀ key n, negotiations db !! key = Some n → n_consensus n ≠ Some id) →
  handle_consensus expected_body (VStr id) db = (Raise Http404, db).
Proof.
  intros Hnone. unfold handle_consensus, mbind, M_bind, retrieve_consensus.
  rewrite filter_none; [done|].
  intros n [[key n'] [-> Hin]]%list_elem_of_fmap Hhas.
  apply elem_of_map_to_list in Hin. cbn [snd] in Hhas.
  unfold has_consensus in Hhas.
  destruct (n_consensus n') as [c|] eqn:Hc; [|done].
  apply eq_str_true in Hhas. injection Hhas as <-.
  by eapply Hnone.
Qed.

(** ** Endpoint transitions *)

Lemma read_only_preserves {A} (R : relation DB) `{!Reflexive R} (m : M A) :
  read_only m → preserves R m.
Proof. intros Hm db r db' Hrun. apply Hm in Hrun as ->. reflexivity. Qed.

(** [record_endpoint_process] as one case analysis on what it reads. *)
Lemma record_endpoint_process_unfold `{Hashing} (endpoint : Endpoint)
    (data : value) (db : DB) :
  record_endpoint_process endpoint data db =
  match dict_get data "process_proof" VNone with
  | Raise err => (Raise err, db)
  | Ok process_proof =>
      match requested_hashes data with
      | Raise err => (Raise err, db)
      | Ok hashes =>
          let count :=
            Z.of_nat (length (filter (in_queryset hashes (e_endpoint_id endpoint)
                                                  PROCESSBOX) (messages db))) in
          if negb (Z.of_nat (length hashes) =? count)
          then (Raise (PermissionDenied "message count mismatch"), db)
          else
            let endpoint' :=
              processed_with process_proof (compute_messages_hash hashes)
                             endpoint in
            (Ok endpoint',
             set_messages
               (fmap (λ m, if decide (in_queryset hashes (e_endpoint_id endpoint)
                                                  PROCESSBOX m)
                           then move_to OUTBOX m else m))
               (set_endpoints (<[e_endpoint_id endpoint := endpoint']>) db))
      end
  end.
Proof.
  unfold record_endpoint_process, mbind, M_bind, lift, queryset_count, query.
  destruct (dict_get data "process_proof" VNone); [|done].
  destruct (requested_hashes data); [|done]. cbv zeta.
  by destruct (negb _).
Qed.

Lemma record_endpoint_process_raises_unchanged `{Hashing}
    (endpoint : Endpoint) (data : value) :
  raises_unchanged (record_endpoint_process endpoint data).
Proof.
  intros db err db'. rewrite record_endpoint_process_unfold.
  destruct (dict_get _ _ _); [|congruence].
  destruct (requested_hashes _); [|congruence]. cbv zeta.
  destruct (negb _); congruence.
Qed.

Lemma close_endpoint_raises_unchanged `{Hashing} (endpoint : Endpoint)
    (data : value) :
  raises_unchanged (close_endpoint endpoint data).
Proof. intros db err db'. apply close_endpoint_rejects_unchanged. Qed.

Lemma log_consensus_str (endpoint : Endpoint) (id : string) (db : DB) :
  log_consensus endpoint (VStr id) db
  = (Ok (logged id endpoint),
     set_endpoints (<[e_endpoint_id endpoint := logged id endpoint]>) db).
Proof. done. Qed.

Lemma apply_transition_raises_unchanged `{Hashing} (endpoint : Endpoint)
    (data : value) (id : string) :
  raises_unchanged (apply_transition endpoint data (VStr id)).
Proof.
  intros db err db' Hrun. unfold apply_transition in Hrun.
  apply bind_cases in Hrun as [(? & Hget & _)|(status & db1 & Hget & Hrun)];
    [by injection Hget|].
  injection Hget as _ <-.
  apply bind_cases in Hrun as [(? & Hstep & _)|(e' & db1 & _ & Hlog)].
  - destruct (eq_str status _);
      [by eapply close_endpoint_raises_unchanged|].
    destruct (eq_str status _);
      [by eapply record_endpoint_process_raises_unchanged|].
    by injection Hstep.
  - by rewrite log_consensus_str in Hlog.
Qed.

(** X3. A partial update that raises has written nothing: whatever the
    request, and whichever check or transition refuses it, the database is
    as it was. *)
Theorem partial_update_raises_unchanged `{CanonicalCodec} `{Hashing}
    (request : Request) (endpoint : Endpoint) (db db' : DB) (err : exn) :
  EndpointView_partial_update_logic request endpoint db = (Raise err, db') →
  db' = db.
Proof.
  unfold EndpointView_partial_update_logic. intros Hrun.
  apply bind_cases in Hrun as [(? & Hstep & _)|(data & db1 & Hstep & Hrun)];
    [by injection Hstep|]. injection Hstep as _ <-.
  apply bind_cases in Hrun as [(? & Hstep & _)|(info & db1 & Hstep & Hrun)];
    [by injection Hstep|]. injection Hstep as _ <-.
  apply bind_cases in Hrun as [(? & Hstep & _)|([] & db1 & Hstep & Hrun)];
    [by injection Hstep|]. injection Hstep as _ <-.
  apply bind_cases in Hrun
    as [(? & Hstep & _)|([consensus_id body] & db1 & Hstep & Hrun)];
    [by injection Hstep|]. injection Hstep as _ <-.
  apply bind_cases in Hrun as [(? & Hstep & _)|(on_last & db1 & Hstep & Hrun)];
    [by injection Hstep|]. injection Hstep as _ <-.
  destruct (is_None on_last); [by injection Hrun|].
  apply bind_cases in Hrun as [(? & Hstep & _)|(eid & db1 & Hstep & Hrun)];
    [by injection Hstep|]. injection Hstep as _ <-.
  destruct (negb (eq_str eid _)); [by injection Hrun|].
  destruct (negb _); [by injection Hrun|].
  apply bind_cases in Hrun as [(? & Hstep & _)|(signings & db1 & Hstep & Hrun)];
    [by eapply handle_consensus_read_only|].
  apply handle_consensus_ok_id in Hstep as [-> [id ->]].
  apply bind_cases in Hrun as [(? & Hstep & _)|(peer & db1 & Hstep & Hrun)].
  { eapply (preserves_get_instance (λ db db', db' = db)), Hstep. }
  apply (preserves_get_instance (λ db db', db' = db)) in Hstep as ->.
  destruct (negb (String.eqb _ _)); [by injection Hrun|].
  apply bind_cases in Hrun as [(? & Hstep & _)|(owners & db1 & Hstep & Hrun)];
    [by injection Hstep|]. injection Hstep as _ <-.
  apply bind_cases in Hrun as [(? & Hstep & _)|([] & db1 & Hstep & Hrun)];
    [by injection Hstep|]. injection Hstep as _ <-.
  by eapply apply_transition_raises_unchanged.
Qed.

(** What a close and a process that succeed have written. *)
Lemma close_endpoint_written `{Hashing} (endpoint endpoint' : Endpoint)
    (data : value) (db db' : DB) :
  close_endpoint endpoint data db = (Ok endpoint', db') →
  ∃ hashes,
    endpoint' = closed_with (compute_messages_hash hashes) endpoint ∧
    endpoints db' = <[e_endpoint_id endpoint := endpoint']> (endpoints db) ∧
    messages db'
    = (λ m, if decide (in_queryset hashes (e_endpoint_id endpoint) INBOX m)
            then move_to ACCEPTED m else m) <$> messages db.
Proof.
  rewrite close_endpoint_unfold.
  destruct (negb _); [discriminate|].
  destruct (requested_hashes data) as [hashes|]; [|discriminate]. cbv zeta.
  destruct (negb _); [discriminate|].
  destruct (_ <? _); [discriminate|].
  destruct (_ >? _); [discriminate|].
  intros [= <- <-]. by exists hashes.
Qed.

Lemma record_endpoint_process_written `{Hashing}
    (endpoint endpoint' : Endpoint) (data : value) (db db' : DB) :
  record_endpoint_process endpoint data db = (Ok endpoint', db') →
  ∃ hashes process_proof,
    endpoint' = processed_with process_proof (compute_messages_hash hashes)
                               endpoint ∧
    messages db'
    = (λ m, if decide (in_queryset hashes (e_endpoint_id endpoint) PROCESSBOX m)
            then move_to OUTBOX m else m) <$> messages db.
Proof.
  rewrite record_endpoint_process_unfold.
  destruct (dict_get data "process_proof" VNone) as [proof|]; [|discriminate].
  destruct (requested_hashes data) as [hashes|]; [|discriminate]. cbv zeta.
  destruct (negb _); [discriminate|].
  intros [= <- <-]. by exists hashes, proof.
Qed.

(** X4. What a successful close guarantees: the endpoint was [OPEN] or
    [FULL]; every submitted hash list entry resolved, and their number is
    within the bounds; the endpoint is stored [CLOSED] with the commitment
    to the submitted hashes and nothing else changed on it; and exactly the
    resolved inbox messages of the endpoint moved to [ACCEPTED]. *)
Theorem close_endpoint_ok `{Hashing} (endpoint endpoint' : Endpoint)
    (data : value) (db db' : DB) :
  close_endpoint endpoint data db = (Ok endpoint', db') →
  (e_status endpoint = OPEN ∨ e_status endpoint = FULL) ∧
  ∃ hashes,
    requested_hashes data = Ok hashes ∧
    length (resolved hashes endpoint db) = length hashes ∧
    e_size_min endpoint ≤ Z.of_nat (length hashes) ≤ e_size_max endpoint ∧
    endpoint' = closed_with (compute_messages_hash hashes) endpoint ∧
    endpoints db' = <[e_endpoint_id endpoint := endpoint']> (endpoints db) ∧
    messages db'
    = (λ m, if decide (in_queryset hashes (e_endpoint_id endpoint) INBOX m)
            then move_to ACCEPTED m else m) <$> messages db.
Proof.
  rewrite close_endpoint_unfold.
  case_bool_decide as Hstatus; cbn [negb]; [|discriminate].
  destruct (requested_hashes data) as [hashes|]; [|discriminate]. cbv zeta.
  destruct (Z.eqb_spec (Z.of_nat (length hashes))
              (Z.of_nat (length (resolved hashes endpoint db)))) as [Hcount|];
    cbn [negb]; [|discriminate].
  destruct (Z.ltb_spec (Z.of_nat (length (resolved hashes endpoint db)))
              (e_size_min endpoint)); [discriminate|].
  destruct (Z.gtb_spec (Z.of_nat (length (resolved hashes endpoint db)))
              (e_size_max endpoint)); [discriminate|].
  intros [= <- <-]. split.
  - rewrite !elem_of_cons, elem_of_nil in Hstatus. tauto.
  - exists hashes. split_and!; try done; lia.
Qed.

(** X5. What a successful process guarantees: every submitted hash
    resolved to a message in [PROCESSBOX] of the endpoint; the endpoint is
    stored [PROCESSED] with the process proof of the request and the
    commitment to the submitted hashes; exactly the resolved messages moved
    to [OUTBOX].  A count that does not match is refused. *)
Theorem record_endpoint_process_ok `{Hashing} (endpoint endpoint' : Endpoint)
    (data : value) (db db' : DB) :
  record_endpoint_process endpoint data db = (Ok endpoint', db') →
  ∃ hashes process_proof,
    requested_hashes data = Ok hashes ∧
    dict_get data "process_proof" VNone = Ok process_proof ∧
    length (filter (in_queryset hashes (e_endpoint_id endpoint) PROCESSBOX)
                   (messages db)) = length hashes ∧
    endpoint' = processed_with process_proof (compute_messages_hash hashes)
                               endpoint ∧
    endpoints db' = <[e_endpoint_id endpoint := endpoint']> (endpoints db) ∧
    messages db'
    = (λ m, if decide (in_queryset hashes (e_endpoint_id endpoint) PROCESSBOX m)
            then move_to OUTBOX m else m) <$> messages db.
Proof.
  rewrite record_endpoint_process_unfold.
  destruct (dict_get data "process_proof" VNone) as [proof|]; [|discriminate].
  destruct (requested_hashes data) as [hashes|]; [|discriminate]. cbv zeta.
  destruct (Z.eqb_spec (Z.of_nat (length hashes))
              (Z.of_nat (length (filter (in_queryset hashes
                                           (e_endpoint_id endpoint) PROCESSBOX)
                                        (messages db))))) as [Hcount|];
    cbn [negb]; [|discriminate].
  intros [= <- <-]. exists hashes, proof. split_and!; try done; lia.
Qed.

(** ** Messages move forward only *)

#[local] Instance messages_move_forward_refl : Reflexive messages_move_forward.
Proof. intros db. apply Forall_Forall2_diag, Forall_forall. by left. Qed.

Lemma moved_forward_trans (m1 m2 m3 : Message) :
  moved_forward m1 m2 → moved_forward m2 m3 → moved_forward m1 m3.
Proof.
  intros [->|[[Hbox ->]|[Hbox ->]]]; [done| |];
    (intros [->|[[Hbox' _]|[Hbox' _]]]; [|done..]).
  - right; by left.
  - right; by right.
Qed.

#[local] Instance messages_move_forward_trans : Transitive messages_move_forward.
Proof.
  intros db1 db2 db3. unfold messages_move_forward.
  generalize (messages db1) (messages db2) (messages db3).
  intros l1 l2 l3 H12. revert l3.
  induction H12 as [|m1 m2 l1 l2 Hm _ IH]; intros l3 H23.
  - by apply Forall2_nil_inv_l in H23 as ->.
  - apply Forall2_cons_inv_l in H23 as (m3 & l3' & Hm' & H23 & ->).
    constructor; [by eapply moved_forward_trans|by apply IH].
Qed.

Lemma moved_by_update (hashes : list string) (endpoint_id : string)
    (ms : list Message) :
  Forall2 moved_forward ms
    ((λ m, if decide (in_queryset hashes endpoint_id INBOX m)
           then move_to ACCEPTED m else m) <$> ms) ∧
  Forall2 moved_forward ms
    ((λ m, if decide (in_queryset hashes endpoint_id PROCESSBOX m)
           then move_to OUTBOX m else m) <$> ms).
Proof.
  split; apply Forall2_fmap_r, Forall_Forall2_diag, Forall_forall; intros m _;
    unfold compose; case_decide as Hq; try (by left); destruct Hq as (_ & _ & Hbox).
  - right; by left.
  - right; by right.
Qed.

Lemma close_endpoint_moves_forward `{Hashing} (endpoint : Endpoint)
    (data : value) :
  preserves messages_move_forward (close_endpoint endpoint data).
Proof.
  intros db [endpoint'|err] db' Hrun.
  - apply close_endpoint_written in Hrun as (hashes & _ & _ & Hms).
    unfold messages_move_forward. rewrite Hms. apply moved_by_update.
  - apply close_endpoint_raises_unchanged in Hrun as ->. reflexivity.
Qed.

Lemma record_endpoint_process_moves_forward `{Hashing} (endpoint : Endpoint)
    (data : value) :
  preserves messages_move_forward (record_endpoint_process endpoint data).
Proof.
  intros db [endpoint'|err] db' Hrun.
  - apply record_endpoint_process_written in Hrun as (hashes & proof & _ & Hms).
    unfold messages_move_forward. rewrite Hms. apply moved_by_update.
  - apply record_endpoint_process_raises_unchanged in Hrun as ->. reflexivity.
Qed.

Lemma log_consensus_moves_forward (endpoint : Endpoint) (consensus_id : value) :
  preserves messages_move_forward (log_consensus endpoint consensus_id).
Proof.
  intros db r db'. destruct consensus_id; try (intros [= _ <-]; reflexivity).
  rewrite log_consensus_str. intros [= _ <-].
  unfold messages_move_forward. cbn. apply (reflexivity (R:=messages_move_forward) db).
Qed.

(** X6. No transition moves a message backward.  Across
    [apply_transition], whatever the request and the outcome, the messages
    are the same rows in the same order, each one kept as it was or moved
    from [INBOX] to [ACCEPTED] or from [PROCESSBOX] to [OUTBOX]: no message
    enters [INBOX] or [PROCESSBOX], none leaves [ACCEPTED] or [OUTBOX], none
    is added or removed. *)
Theorem apply_transition_moves_forward `{Hashing} (endpoint : Endpoint)
    (data consensus_id : value) (db db' : DB) (r : result Endpoint) :
  apply_transition endpoint data consensus_id db = (r, db') →
  Forall2 moved_forward (messages db) (messages db').
Proof.
  revert db r db'. change (preserves messages_move_forward
                             (apply_transition endpoint data consensus_id)).
  unfold apply_transition.
  apply preserves_bind; [apply _|apply preserves_lift; apply _|].
  intros status.
  apply preserves_bind; [apply _| |intros e; apply log_consensus_moves_forward].
  apply preserves_if; [apply close_endpoint_moves_forward|].
  apply preserves_if; [apply record_endpoint_process_moves_forward|].
  apply preserves_raise, _.
Qed.

(** ** The commitment hash *)

(** X7. [compute_messages_hash] depends on the set of hashes only: two
    lists with the same elements, in any order and with any repetitions,
    give the same commitment. *)
Theorem compute_messages_hash_same_set `{Hashing} (l k : list string) :
  (∀ x, x ∈ l ↔ x ∈ k) → compute_messages_hash l = compute_messages_hash k.
Proof.
  intros Hsame. unfold compute_messages_hash. cbv zeta. do 2 f_equal.
  apply sorted_eq_iff, NoDup_Permutation; [apply NoDup_remove_dups..|].
  intros x. by rewrite !elem_of_remove_dups.
Qed.

Lemma compute_messages_hash_same_set_witness :
  @compute_messages_hash Sample.hashing ["a"; "b"; "a"]
  = @compute_messages_hash Sample.hashing ["b"; "a"].
Proof.
  apply (@compute_messages_hash_same_set Sample.hashing).
  intros x. rewrite !elem_of_cons, elem_of_nil. tauto.
Defined.

(** ** A successful update *)

Lemma apply_transition_ok `{Hashing} (endpoint endpoint' : Endpoint)
    (data : value) (id : string) (db db' : DB) :
  apply_transition endpoint data (VStr id) db = (Ok endpoint', db') →
  ∃ endpoint1 db1,
    (close_endpoint endpoint data db = (Ok endpoint1, db1) ∨
     record_endpoint_process endpoint data db = (Ok endpoint1, db1)) ∧
    endpoint' = logged id endpoint1 ∧
    db' = set_endpoints (<[e_endpoint_id endpoint1 := endpoint']>) db1.
Proof.
  unfold apply_transition. intros Hrun.
  apply bind_ok in Hrun as (status & db0 & Hget & Hrun).
  injection Hget as _ <-.
  apply bind_ok in Hrun as (endpoint1 & db1 & Hstep & Hlog).
  rewrite log_consensus_str in Hlog. injection Hlog as <- <-.
  exists endpoint1, db1. split; [|done].
  destruct (eq_str status _); [by left|].
  destruct (eq_str status _); [by right|]. discriminate.
Qed.

(** X8. A partial update that succeeds was authorized and is recorded:
    the request names a consensus id, the endpoint that comes back is stored
    under the id of the endpoint given, is [CLOSED] or [PROCESSED], and
    carries that consensus id as its last consensus; the peer of the
    endpoint is [READY]. *)
Theorem partial_update_records_consensus `{CanonicalCodec} `{Hashing}
    (request : Request) (endpoint endpoint' : Endpoint) (db db' : DB) :
  EndpointView_partial_update_logic request endpoint db = (Ok endpoint', db') →
  ∃ (id body : string) (peer : Peer),
    require_by_consensus (r_data request) = Ok (VStr id, body) ∧
    get_last_consensus_id endpoint' = Some id ∧
    endpoints db' !! e_endpoint_id endpoint = Some endpoint' ∧
    e_endpoint_id endpoint' = e_endpoint_id endpoint ∧
    (e_status endpoint' = CLOSED ∨ e_status endpoint' = PROCESSED) ∧
    peers db !! e_peer_id endpoint = Some peer ∧
    p_status peer = PeerStatus_READY.
Proof.
  unfold EndpointView_partial_update_logic. intros Hrun.
  apply bind_ok in Hrun as (data & db1 & Hstep & Hrun). injection Hstep as _ <-.
  apply bind_ok in Hrun as (info & db1 & Hstep & Hrun). injection Hstep as _ <-.
  apply bind_ok in Hrun as ([] & db1 & Hstep & Hrun). injection Hstep as _ <-.
  apply bind_ok in Hrun as ([consensus_id body] & db1 & Hreq & Hrun).
  injection Hreq as Hreq <-.
  apply bind_ok in Hrun as (on_last & db1 & Hstep & Hrun).
  injection Hstep as _ <-.
  destruct (is_None on_last); [discriminate|].
  apply bind_ok in Hrun as (eid & db1 & Hstep & Hrun). injection Hstep as _ <-.
  destruct (negb (eq_str eid _)); [discriminate|].
  destruct (negb _); [discriminate|].
  apply bind_ok in Hrun as (signings & db1 & Hcons & Hrun).
  apply handle_consensus_ok_id in Hcons as [-> [id ->]].
  apply bind_ok in Hrun as (peer & db1 & Hpeer & Hrun).
  unfold get_instance in Hpeer.
  destruct (peers db !! e_peer_id endpoint) as [peer'|] eqn:Hfound;
    [|discriminate]. injection Hpeer as -> <-.
  destruct (String.eqb_spec (p_status peer) PeerStatus_READY) as [Hready|];
    [|discriminate]. cbn [negb] in Hrun.
  apply bind_ok in Hrun as (owners & db1 & Hstep & Hrun).
  injection Hstep as _ <-.
  apply bind_ok in Hrun as ([] & db1 & Hstep & Hrun). injection Hstep as _ <-.
  apply apply_transition_ok in Hrun as (e1 & db1 & Hstep & -> & ->).
  assert (Hid : e_endpoint_id e1 = e_endpoint_id endpoint ∧
                (e_status e1 = CLOSED ∨ e_status e1 = PROCESSED)).
  { destruct Hstep as [Hstep|Hstep].
    - apply close_endpoint_written in Hstep as (? & -> & _).
      split; [done|by left].
    - apply record_endpoint_process_written in Hstep as (? & ? & -> & _).
      split; [done|by right]. }
  destruct Hid as [Hid Hstatus].
  exists id, body, peer. split_and!; try done.
  cbn [endpoints set_endpoints]. rewrite Hid. apply lookup_insert_eq.
Qed.

(** ** Contributions *)

(** X9. A contribution is only ever returned for an open negotiation, with
    a text and a signature that the backend verified, under the identity the
    backend recovered, which is the one the request claims. *)
Theorem contribute_sound `{CanonicalCodec} `{Hashing} `{SignatureVerifier}
    (now : datetime) (negotiation : Negotiation) (request : value)
    (key_data : option string) (db db' : DB) (contrib : Contribution) :
  contribute_to_negotiation now negotiation request key_data db
  = (Ok contrib, db') →
  n_status negotiation = NEG_OPEN ∧
  subscript request "text" = Ok (VStr (c_text contrib)) ∧
  subscript request "signature" = Ok (VStr (c_signature contrib)) ∧
  subscript request "signer_key_id" = Ok (VStr (c_signer_key_id contrib)) ∧
  backend_verify (c_text contrib) (c_signature contrib) key_data
  = (true, c_signer_key_id contrib).
Proof.
  unfold contribute_to_negotiation.
  case_bool_decide as Hopen; cbn [negb]; [|discriminate]. intros Hrun.
  apply bind_ok in Hrun as (text & db1 & Hstep & Hrun).
  injection Hstep as Htext <-.
  apply bind_ok in Hrun as (signature & db1 & Hstep & Hrun).
  injection Hstep as Hsig <-.
  apply bind_ok in Hrun as (signer & db1 & Hstep & Hrun).
  injection Hstep as Hsigner <-.
  apply bind_ok in Hrun as (text' & db1 & Hstep & Hrun).
  injection Hstep as Htext' <-.
  apply bind_ok in Hrun as (signature' & db1 & Hstep & Hrun).
  injection Hstep as Hsig' <-.
  destruct text; try discriminate. injection Htext' as ->.
  destruct signature; try discriminate. injection Hsig' as ->.
  destruct (backend_verify text' signature' key_data) as [valid key_id] eqn:Hv.
  destruct valid; cbn [negb] in Hrun; [|discriminate].
  destruct (eq_str signer key_id) eqn:Hclaimed; cbn [negb] in Hrun;
    [|discriminate].
  apply eq_str_true in Hclaimed as ->.
  apply bind_ok in Hrun as ([] & db1 & _ & Hrun).
  apply bind_ok in Hrun as ([] & db2 & _ & Hrun).
  apply bind_ok in Hrun as ([] & db3 & _ & Hrun).
  injection Hrun as <- <-. by split_and!.
Qed.

(** X10. Closure evaluation seals nothing while the signers disagree or
    have not accepted: with two latest contributions of different texts, or
    with one text whose [meta.accept] is not true, it returns and the
    database is as it was. *)
Theorem check_close_negotiation_waits `{CanonicalCodec} `{Hashing}
    (now : datetime) (negotiation : Negotiation) (db : DB) :
  let latests :=
    filter (λ c, c_negotiation c = n_id negotiation ∧ c_latest c = true)
           (contributions db) in
  ((∃ c1 c2, c1 ∈ latests ∧ c2 ∈ latests ∧ c_text c1 ≠ c_text c2) →
   check_close_negotiation now negotiation db = (Ok (), db)) ∧
  (∀ text document meta accept,
     latests ≠ [] → (∀ c, c ∈ latests → c_text c = text) →
     from_canonical (from_unicode text) = Ok document →
     dict_get document "meta" (VDict ∅) = Ok meta →
     dict_get meta "accept" (VBool false) = Ok accept →
     truthy accept = false →
     check_close_negotiation now negotiation db = (Ok (), db)).
Proof.
  intros latests. split.
  - intros (c1 & c2 & Hc1 & Hc2 & Hdiff).
    unfold check_close_negotiation, get_latest_contributions, query.
    unfold mbind at 1. unfold M_bind at 1. fold latests.
    assert (H1 : c_text c1 ∈ remove_dups (c_text <$> latests)).
    { apply elem_of_remove_dups, list_elem_of_fmap. eauto. }
    assert (H2 : c_text c2 ∈ remove_dups (c_text <$> latests)).
    { apply elem_of_remove_dups, list_elem_of_fmap. eauto. }
    destruct (remove_dups (c_text <$> latests)) as [|t [|t' ts]]; [done| |done].
    apply list_elem_of_singleton in H1, H2. congruence.
  - intros text document meta accept Hne Htext Hdoc Hmeta Haccept Htruthy.
    unfold check_close_negotiation, get_latest_contributions, query.
    unfold mbind at 1. unfold M_bind at 1. fold latests.
    rewrite (remove_dups_const _ text).
    + rewrite Hdoc. unfold mbind, M_bind, lift. by rewrite Hmeta, Haccept, Htruthy.
    + by intros Hnil%fmap_nil_inv.
    + intros x [c [-> Hc]]%list_elem_of_fmap. by apply Htext.
Qed.

(** ** Sealing and retrieving *)

Lemma sealed_is_retrieved_alone (id key : string) (n' : Negotiation)
    (table : gmap string Negotiation) :
  n_consensus n' = Some id →
  (∀ k m, table !! k = Some m → k ≠ key → n_consensus m ≠ Some id) →
  filter (has_consensus (VStr id)) (map_to_list (<[key := n']> table)).*2
  = [n'].
Proof.
  intros Hid Hothers. apply Permutation_singleton_r.
  rewrite <- insert_delete_eq.
  rewrite map_to_list_insert by apply lookup_delete_eq.
  rewrite fmap_cons. cbn [snd].
  rewrite filter_cons_True.
  2: { unfold has_consensus. rewrite Hid. cbn. apply String.eqb_refl. }
  rewrite filter_none; [done|].
  intros m [[k m'] [-> Hin]]%list_elem_of_fmap Hhas.
  apply elem_of_map_to_list in Hin. cbn [snd] in Hhas.
  apply lookup_delete_Some in Hin as [Hne Hin].
  unfold has_consensus in Hhas.
  destruct (n_consensus m') as [c|] eqn:Hc; [|done].
  apply eq_str_true in Hhas. injection Hhas as <-.
  by eapply Hothers.
Qed.

Lemma signings_of_negotiation (negotiation : Negotiation)
    (contributions : list Contribution) :
  filter (λ s, s_negotiation s = n_id negotiation)
         (signing_of negotiation <$> contributions)
  = signing_of negotiation <$> contributions.
Proof.
  induction contributions as [|c cs IH]; [done|].
  rewrite fmap_cons, filter_cons_True by done. by rewrite IH.
Qed.

(** X11. What is sealed can be retrieved.  After [_close_negotiation]
    succeeds, and provided no other negotiation carries the same consensus id
    and the negotiation had no signings before, [retrieve_consensus] on the
    new consensus id returns the sealed text and the signer-to-signature
    dictionary of the contributions that were sealed. *)
Theorem sealed_consensus_retrieved `{CanonicalCodec} `{Hashing}
    (now : datetime) (negotiation negotiation' : Negotiation)
    (contributions : list Contribution) (db db' : DB) :
  _close_negotiation now negotiation contributions db
  = (Ok negotiation', db') →
  (∀ k m, negotiations db !! k = Some m → k ≠ n_id negotiation →
          n_consensus m ≠ n_consensus negotiation') →
  (∀ s, s ∈ signings db → s_negotiation s ≠ n_id negotiation) →
  ∃ id,
    n_consensus negotiation' = Some id ∧
    n_status negotiation' = NEG_DONE ∧
    retrieve_consensus (VStr id) db'
    = (Ok {| consensus_text := n_text negotiation';
             consensus_signings := signings_dict_of contributions |}, db').
Proof.
  unfold _close_negotiation. intros Hrun Hothers Hfresh.
  apply bind_ok in Hrun as (text & db1 & Htext & Hrun).
  injection Htext as Htext <-.
  apply bind_ok in Hrun as (signings_dict & db1 & Hmk & Hrun).
  unfold mk_signings in Hmk. rewrite mk_signings_loop_eq in Hmk.
  injection Hmk as <- <-.
  injection Hrun as <- <-.
  eexists. split; [reflexivity|]. split; [reflexivity|].
  unfold retrieve_consensus. cbn [negotiations set_negotiations set_signings].
  erewrite sealed_is_retrieved_alone; [|reflexivity|exact Hothers].
  do 2 f_equal. unfold to_consensus_dict.
  cbn [n_text n_id sealed signings set_negotiations set_signings].
  f_equal. rewrite filter_app, filter_none.
  2: { intros s Hs. by apply Hfresh. }
  rewrite app_nil_l, signings_of_negotiation.
  unfold signings_dict_of. by rewrite foldl_fmap.
Qed.

(** ** Request tags *)

(** X12. [validate_operation] passes exactly for a dictionary whose
    [operation] and [resource] are the expected strings; a missing or
    different tag is a [ValidationError], anything but a dictionary an
    [AttributeError]. *)
Theorem validate_operation_spec (info : value) (operation resource : string) :
  (validate_operation info operation resource = Ok () ↔
   ∃ d, info = VDict d ∧ d !! "operation" = Some (VStr operation) ∧
        d !! "resource" = Some (VStr resource)) ∧
  (validate_operation info operation resource = Ok () ∨
   (∃ msg, validate_operation info operation resource
           = Raise (ValidationError msg)) ∨
   validate_operation info operation resource = Raise AttributeError).
Proof.
  unfold validate_operation.
  destruct info as [| | | | |d]; cbn;
    try (split; [split; [done|by intros (? & ? & _)]|by right; right]).
  destruct (d !! "operation") as [op|] eqn:Hop; cbn.
  2: { split; [split; [done|by intros (? & [= <-] & ? & _); congruence]|].
       right; left; eauto. }
  destruct (eq_str op operation) eqn:Hopeq; cbn.
  2: { split; [|right; left; eauto]. split; [done|].
       intros (? & [= <-] & Hop' & _). rewrite Hop in Hop'.
       injection Hop' as ->. cbn in Hopeq. by rewrite String.eqb_refl in Hopeq. }
  apply eq_str_true in Hopeq as ->.
  destruct (d !! "resource") as [res|] eqn:Hres; cbn.
  2: { split; [split; [done|by intros (? & [= <-] & _ & ?); congruence]|].
       right; left; eauto. }
  destruct (eq_str res resource) eqn:Hreseq; cbn.
  2: { split; [|right; left; eauto]. split; [done|].
       intros (? & [= <-] & _ & Hres'). rewrite Hres in Hres'.
       injection Hres' as ->. cbn in Hreseq.
       by rewrite String.eqb_refl in Hreseq. }
  apply eq_str_true in Hreseq as ->.
  split; [|by left]. split; [eauto|done].
Qed.

(** ** Message admission *)

Lemma check_is_owner_read_only (endpoint : Endpoint) (user : string) :
  read_only (check_is_owner endpoint user).
Proof.
  intros db r db'. unfold check_is_owner.
  destruct (String.eqb _ _); by intros [= _ <-].
Qed.


(** X14. A refused message leaves no trace: when
    [MessageView.creation_logic] raises, for a wrong tag, an unknown
    endpoint, a box that is not open to the request, a malformed field or a
    hash that does not match, the database is as it was. *)
Theorem message_admission_raises_unchanged `{Hashing} (request : Request)
    (db db' : DB) (err : exn) :
  MessageView_creation_logic request db = (Raise err, db') → db' = db.
Proof.
  revert db err db'.
  change (raises_unchanged (MessageView_creation_logic request)).
  unfold MessageView_creation_logic, MessageView_perform_create.
  repeat (apply raises_unchanged_bind;
          [solve [unfold read_only; preserves_steps;
                  apply (read_only_preserves _ _ (check_is_owner_read_only _ _))]
          |intros ?]).
  apply raises_unchanged_if.
  - by intros db err db' [= _ <-].
  - repeat (apply raises_unchanged_bind;
            [solve [unfold read_only; preserves_steps]|intros ?]).
    intros db err db' Hrun.
    unfold mbind, M_bind, write, mret, M_ret in Hrun. discriminate Hrun.
Qed.

(** ** The reference to a negotiation *)

Lemma rstrip_slash_slashes (s : string) (n : nat) :
  rstrip_slash (s +:+ slashes n) = rstrip_slash s.
Proof.
  induction s as [|c s IH].
  - induction n as [|n IH]; [done|].
    change (rstrip_slash (String slash (EmptyString +:+ slashes n))
            = EmptyString).
    cbn [rstrip_slash]. by rewrite IH.
  - change (rstrip_slash (String c (s +:+ slashes n))
            = rstrip_slash (String c s)).
    cbn [rstrip_slash]. by rewrite IH.
Qed.

Lemma rstrip_slash_clean (s : string) : no_slash s = true → rstrip_slash s = s.
Proof.
  induction s as [|c s IH]; [done|]. cbn [no_slash rstrip_slash].
  intros [Hc Hs]%andb_true_iff. rewrite IH by done.
  destruct s; [|done]. by destruct (Ascii.eqb c slash).
Qed.

Lemma rstrip_slash_before_clean (p s : string) :
  s ≠ EmptyString → no_slash s = true → rstrip_slash (p +:+ s) = p +:+ s.
Proof.
  intros Hne Hs. induction p as [|c p IH].
  - by apply rstrip_slash_clean.
  - change (rstrip_slash (String c (p +:+ s)) = String c (p +:+ s)).
    cbn [rstrip_slash]. rewrite IH.
    destruct (p +:+ s) eqn:Hps; [|done].
    destruct p; [|discriminate]. by destruct Hne.
Qed.

Lemma split_slash_clean (s : string) : no_slash s = true → split_slash s = [s].
Proof.
  induction s as [|c s IH]; [done|]. cbn [no_slash split_slash].
  intros [Hc Hs]%andb_true_iff. apply negb_true_iff in Hc. rewrite Hc.
  by rewrite IH.
Qed.

Lemma split_slash_after (p s : string) :
  ∃ parts, split_slash (p +:+ String slash s) = parts ++ split_slash s ∧
           parts ≠ [].
Proof.
  induction p as [|c p (parts & IH & Hne)].
  - by exists [EmptyString].
  - change (String c p +:+ String slash s)
      with (String c (p +:+ String slash s)).
    cbn [split_slash]. rewrite IH.
    destruct (Ascii.eqb c slash).
    + by exists (EmptyString :: parts).
    + destruct parts as [|first others]; [done|].
      by exists (String c first :: others).
Qed.

(** X15. The negotiation id that [ContributionView] reads off a
    reference is its last path segment: for an id without a slash, alone or
    after any prefix that ends in a slash, and followed by any number of
    slashes, [rstrip] and [split] give back the id. *)
Theorem negotiation_id_of_reference (prefix id : string) (n : nat) :
  id ≠ EmptyString → no_slash id = true →
  last_part (split_slash (rstrip_slash (id +:+ slashes n))) = id ∧
  last_part (split_slash
               (rstrip_slash ((prefix +:+ String slash id) +:+ slashes n))) = id.
Proof.
  intros Hne Hclean. rewrite !rstrip_slash_slashes. split.
  - by rewrite rstrip_slash_clean, split_slash_clean.
  - replace (prefix +:+ String slash id)
      with ((prefix +:+ String slash EmptyString) +:+ id)
      by (by rewrite string_app_assoc).
    rewrite rstrip_slash_before_clean by done.
    rewrite string_app_assoc.
    change (String slash EmptyString +:+ id) with (String slash id).
    destruct (split_slash_after prefix id) as (parts & -> & _).
    rewrite split_slash_clean by done.
    unfold last_part. by rewrite last_snoc.
Qed.

Lemma negotiation_id_of_reference_witness :
  last_part (split_slash (rstrip_slash "N//")) = "N" ∧
  last_part (split_slash (rstrip_slash "/negotiations/N//")) = "N".
Proof.
  apply (negotiation_id_of_reference "/negotiations" "N" 2);
    [discriminate|reflexivity].
Defined.

(** ** The creation views *)

(** X16. [ContributionView] contributes to the negotiation named by the
    last segment of the reference: when it succeeds that negotiation is in
    the database and the contribution belongs to it; when no negotiation has
    that id the request ends in [Http404] and nothing is written. *)
Theorem contribution_view_negotiation `{CanonicalCodec} `{Hashing}
    `{SignatureVerifier} (now : datetime) (request : Request) (db : DB) :
  (∀ contrib db',
     ContributionView_creation_logic now request db = (Ok contrib, db') →
     ∃ data reference negotiation,
       dict_get (r_data request) "data" (VDict ∅) = Ok data ∧
       dict_get data "negotiation" VNone = Ok (VStr reference) ∧
       negotiations db !! last_part (split_slash (rstrip_slash reference))
       = Some negotiation ∧
       contribute_to_negotiation now negotiation data (r_auth request) db
       = (Ok contrib, db') ∧
       c_negotiation contrib = n_id negotiation) ∧
  (∀ data info reference,
     dict_get (r_data request) "data" (VDict ∅) = Ok data →
     dict_get (r_data request) "info" (VDict ∅) = Ok info →
     validate_operation info "create" "contribution" = Ok () →
     dict_get data "negotiation" VNone = Ok (VStr reference) →
     negotiations db !! last_part (split_slash (rstrip_slash reference)) = None →
     ContributionView_creation_logic now request db = (Raise Http404, db)).
Proof.
  split.
  - intros contrib db' Hrun. unfold ContributionView_creation_logic in Hrun.
    apply bind_ok in Hrun as (data & db1 & Hdata & Hrun).
    injection Hdata as Hdata <-.
    apply bind_ok in Hrun as (info & db1 & Hstep & Hrun).
    injection Hstep as _ <-.
    apply bind_ok in Hrun as ([] & db1 & Hstep & Hrun). injection Hstep as _ <-.
    apply bind_ok in Hrun as (reference & db1 & Href & Hrun).
    injection Href as Href <-.
    apply bind_ok in Hrun as (href & db1 & Hstrip & Hrun).
    injection Hstrip as Hstrip <-.
    destruct reference as [| | |reference| |]; try discriminate.
    injection Hstrip as <-.
    apply bind_ok in Hrun as (negotiation & db1 & Hfound & Hrun).
    unfold get_instance in Hfound.
    destruct (negotiations db !! _) as [n|] eqn:Hn; [|discriminate].
    injection Hfound as -> <-.
    exists data, reference, negotiation. split_and!; try done.
    destruct (contribute_contributions now negotiation data (r_auth request) db)
      as [[_ [err Herr]]|(contrib' & _ & Hneg & _ & [Hok|[err Herr]])];
      rewrite Hrun in *; cbn in *; congruence.
  - intros data info reference Hdata Hinfo Hvalid Href Hnone.
    unfold ContributionView_creation_logic, mbind, M_bind, lift.
    rewrite Hdata, Hinfo, Hvalid, Href. cbn [py_rstrip_slash].
    unfold get_instance. by rewrite Hnone.
Qed.

(** X17. A peer is created only by consensus and with permission: when
    [PeerView.creation_logic] succeeds, the request carries a consensus id
    that [handle_consensus] accepts for the request, its data has an
    [owners] key and the status [READY], and [check_permission] passes for
    the peer id and the owners of the request with the signings of that
    consensus.  (Without an [owners] key, [perform_create] raises.) *)
Theorem peer_creation_sound `{CanonicalCodec} `{Hashing} `{ModelStore}
    (request : Request) (db db' : DB) (peer : Peer) :
  PeerView_creation_logic request db = (Ok peer, db') →
  ∃ (data : gmap string value) (id body peer_id : string)
    (owners : list string) (owner_values : value)
    (signings : gmap string string),
    dict_get (r_data request) "data" (VDict ∅) = Ok (VDict data) ∧
    is_Some (data !! "owners") ∧
    data !! "status" = Some (VStr PeerStatus_READY) ∧
    data !! "peer_id" = Some (VStr peer_id) ∧
    require_by_consensus (r_data request) = Ok (VStr id, body) ∧
    handle_consensus body (VStr id) db = (Ok signings, db) ∧
    owner_key_ids (default (VList []) (data !! "owners"))
    = Ok (VStr <$> owners) ∧
    check_permission peer_id owners signings (r_user_peer_id request) = Ok ().
Proof.
  unfold PeerView_creation_logic. intros Hrun.
  apply bind_ok in Hrun as (data & db1 & Hdata & Hrun).
  injection Hdata as Hdata <-.
  apply bind_ok in Hrun as (info & db1 & Hstep & Hrun). injection Hstep as _ <-.
  apply bind_ok in Hrun as ([] & db1 & Hstep & Hrun). injection Hstep as _ <-.
  apply bind_ok in Hrun as ([consensus_id body] & db1 & Hreq & Hrun).
  injection Hreq as Hreq <-.
  apply bind_ok in Hrun as (signings & db1 & Hcons & Hrun).
  pose proof Hcons as Hsound.
  apply handle_consensus_ok_id in Hsound as [-> [id ->]].
  apply bind_ok in Hrun as (owner_values & db1 & Howners & Hrun).
  injection Howners as Howners <-.
  apply bind_ok in Hrun as (owner_ids & db1 & Hids & Hrun).
  injection Hids as Hids <-.
  apply bind_ok in Hrun as (peer_id & db1 & Hpeer & Hrun).
  injection Hpeer as Hpeer <-.
  apply bind_ok in Hrun as (status & db1 & Hstatus & Hrun).
  injection Hstatus as Hstatus <-.
  destruct (eq_str status PeerStatus_READY) eqn:Hready; cbn [negb] in Hrun;
    [|discriminate].
  apply eq_str_true in Hready as ->.
  apply bind_ok in Hrun as (owners & db1 & Hstr & Hrun).
  injection Hstr as Hstr <-.
  apply bind_ok in Hrun as (peer_id' & db1 & Hpid & Hrun).
  injection Hpid as Hpid <-.
  destruct peer_id as [| | |peer_id| |]; try discriminate.
  injection Hpid as <-.
  apply bind_ok in Hrun as ([] & db1 & Hperm & Hrun).
  injection Hperm as Hperm <-.
  unfold PeerView_perform_create in Hrun.
  apply bind_ok in Hrun as ([popped data'] & db1 & Hpop & Hrun).
  injection Hpop as Hpop <-.
  destruct data as [| | | | |d]; try discriminate.
  cbn [dict_pop] in Hpop.
  destruct (d !! "owners") as [owners_v|] eqn:Hkey; [|discriminate].
  cbn [dict_get subscript] in *. rewrite Hkey in Howners.
  cbn in Howners. injection Howners as <-.
  destruct (d !! "peer_id") as [pid|] eqn:Hpidkey; [|discriminate].
  injection Hpeer as ->.
  injection Hstatus as Hstatus.
  destruct (d !! "status") as [st|] eqn:Hst; cbn in Hstatus; [|discriminate].
  subst st.
  exists d, id, body, peer_id, owners, owners_v, signings.
  split_and!; try done.
  rewrite Hkey. cbn. rewrite Hids. f_equal.
  clear -Hstr. revert owners Hstr.
  induction owner_ids as [|v vs IH]; intros owners Hstr.
  - by injection Hstr as <-.
  - cbn in Hstr. destruct v; try discriminate. cbn in Hstr.
    destruct (mapM as_str vs) as [rest|] eqn:Hrest; [|discriminate].
    cbn in Hstr. injection Hstr as <-. cbn. f_equal. by apply IH.
Qed.

(** X18. An endpoint is created only [OPEN], for a [READY] peer, by
    consensus and with permission: when [EndpointView.creation_logic]
    succeeds, the data of the request has the status [OPEN] and names a peer
    of the database that is [READY]; [handle_consensus] accepts the consensus
    of the request; [check_permission] passes for the owners of that peer;
    and the endpoint that comes back is stored with that consensus as its
    last one. *)
Theorem endpoint_creation_sound `{CanonicalCodec} `{Hashing} `{ModelStore}
    (request : Request) (db db' : DB) (endpoint : Endpoint) :
  EndpointView_creation_logic request db = (Ok endpoint, db') →
  ∃ (data : value) (id body peer_id : string) (peer : Peer)
    (signings : gmap string string),
    dict_get (r_data request) "data" (VDict ∅) = Ok data ∧
    dict_get data "status" VNone = Ok (VStr (CycleStatus_name OPEN)) ∧
    subscript data "peer_id" = Ok (VStr peer_id) ∧
    peers db !! peer_id = Some peer ∧
    p_status peer = PeerStatus_READY ∧
    require_by_consensus (r_data request) = Ok (VStr id, body) ∧
    handle_consensus body (VStr id) db = (Ok signings, db) ∧
    check_permission peer_id
      (o_owner_key_id <$> filter (λ o, o_peer_id o = p_peer_id peer) (owners db))
      signings (r_user_peer_id request) = Ok () ∧
    get_last_consensus_id endpoint = Some id ∧
    endpoints db' !! e_endpoint_id endpoint = Some endpoint.
Proof.
  unfold EndpointView_creation_logic. intros Hrun.
  apply bind_ok in Hrun as (data & db1 & Hdata & Hrun).
  injection Hdata as Hdata <-.
  apply bind_ok in Hrun as (info & db1 & Hstep & Hrun). injection Hstep as _ <-.
  apply bind_ok in Hrun as ([] & db1 & Hstep & Hrun). injection Hstep as _ <-.
  apply bind_ok in Hrun as ([consensus_id body] & db1 & Hreq & Hrun).
  injection Hreq as Hreq <-.
  apply bind_ok in Hrun as (signings & db1 & Hcons & Hrun).
  pose proof Hcons as Hsound.
  apply handle_consensus_ok_id in Hsound as [-> [id ->]].
  apply bind_ok in Hrun as (peer_id & db1 & Hpid & Hrun).
  injection Hpid as Hpid <-.
  apply bind_ok in Hrun as (peer & db1 & Hfound & Hrun).
  unfold get_instance in Hfound.
  destruct peer_id as [| | |peer_id| |]; try discriminate.
  destruct (peers db !! peer_id) as [peer'|] eqn:Hpeer; [|discriminate].
  injection Hfound as -> <-.
  destruct (String.eqb_spec (p_status peer) PeerStatus_READY) as [Hready|];
    cbn [negb] in Hrun; [|discriminate].
  apply bind_ok in Hrun as (owners & db1 & Howners & Hrun).
  injection Howners as <- <-.
  apply bind_ok in Hrun as (peer_id' & db1 & Hstr & Hrun).
  injection Hstr as <- <-.
  apply bind_ok in Hrun as ([] & db1 & Hperm & Hrun).
  injection Hperm as Hperm <-.
  unfold EndpointView_perform_create in Hrun.
  apply bind_ok in Hrun as (status & db1 & Hstatus & Hrun).
  injection Hstatus as Hstatus <-.
  destruct (eq_str status (CycleStatus_name OPEN)) eqn:Hopen;
    cbn [negb] in Hrun; [|discriminate].
  apply eq_str_true in Hopen as ->.
  apply bind_ok in Hrun as (created & db1 & _ & Hlog).
  rewrite log_consensus_str in Hlog. injection Hlog as <- <-.
  exists data, id, body, peer_id, peer, signings. split_and!; try done.
  cbn. apply lookup_insert_eq.
Qed.

(** ** The further properties on concrete requests *)

Lemma handle_consensus_sound_witness :
  ∃ key n, negotiations (Sample.sealed_by_alice "close E"
                           (Sample.endpoint_E OPEN "c0")) !! key = Some n ∧
           n_consensus n = Some "c1".
Proof.
  destruct (@handle_consensus_sound Sample.codec "status=CLOSED" (VStr "c1")
              (Sample.sealed_by_alice "close E" (Sample.endpoint_E OPEN "c0"))
              (Sample.sealed_by_alice "close E" (Sample.endpoint_E OPEN "c0"))
              (<["alice" := "signed-by-alice"]> ∅))
    as (_ & key & id & text & n & _ & _ & _ & _ & Hid & Hkey & Hn & _).
  - vm_compute. reflexivity.
  - injection Hid as <-. eauto.
Defined.

Lemma handle_consensus_unknown_witness :
  @handle_consensus Sample.codec "status=CLOSED" (VStr "c2")
    (Sample.sealed_by_alice "close E" (Sample.endpoint_E OPEN "c0"))
  = (Raise Http404,
     Sample.sealed_by_alice "close E" (Sample.endpoint_E OPEN "c0")).
Proof.
  apply (@handle_consensus_unknown Sample.codec).
  intros key n Hn. cbn [Sample.sealed_by_alice negotiations] in Hn.
  apply lookup_singleton_Some in Hn as [_ <-]. discriminate.
Defined.

Lemma partial_update_raises_unchanged_witness :
  let E := Sample.endpoint_E OPEN "c9" in
  let db := Sample.sealed_by_alice "close E" E in
  (@EndpointView_partial_update_logic Sample.codec Sample.hashing
     (Sample.update_request "CLOSED" "c0") E db).2 = db.
Proof.
  intros E db.
  apply (@partial_update_raises_unchanged Sample.codec Sample.hashing
           (Sample.update_request "CLOSED" "c0") E db _
           (PermissionDenied "condition on consensus_id failed")).
  vm_compute. reflexivity.
Defined.

(** An endpoint that takes two or three messages, with three messages in
    its inbox and one in the inbox of another endpoint under a hash that the
    request names: the two named messages of the endpoint are accepted, the
    others stay, and the endpoint is closed on the commitment to the two
    hashes. *)
Lemma close_endpoint_ok_witness :
  let E := {| e_endpoint_id := "E"; e_peer_id := "P"; e_status := OPEN;
              e_size_min := 2; e_size_max := 3; e_inbox_hash := None;
              e_outbox_hash := None; e_process_proof := VNone;
              e_last_consensus_id := Some "c0" |} in
  let message endpoint_id hash :=
    {| m_sender := "s"; m_recipient := "r"; m_text := "t";
       m_message_hash := hash; m_endpoint_id := endpoint_id; m_box := INBOX |} in
  let db :=
    set_messages (λ _, [message "E" "a"; message "E" "b"; message "E" "c";
                        message "F" "a"])
                 (Sample.sealed_by_alice "close E" E) in
  let data :=
    VDict (<["message_hashes" := VList [VDict (<["hash" := VStr "b"]> ∅);
                                        VDict (<["hash" := VStr "a"]> ∅)]]> ∅) in
  ∃ E' db',
    @close_endpoint Sample.hashing E data db = (Ok E', db') ∧
    e_status E' = CLOSED ∧ e_inbox_hash E' = Some "sha256:ab" ∧
    endpoints db' !! "E" = Some E' ∧
    (λ m, (m_endpoint_id m, m_message_hash m, m_box m)) <$> messages db'
    = [("E", "a", ACCEPTED); ("E", "b", ACCEPTED); ("E", "c", INBOX);
       ("F", "a", INBOX)].
Proof.
  intros E message db data.
  destruct (@close_endpoint Sample.hashing E data db) as [[E'|err] db']
    eqn:Hrun; [|vm_compute in Hrun; discriminate Hrun].
  destruct (@close_endpoint_ok Sample.hashing E E' data db db' Hrun)
    as (_ & hashes & Hhashes & _ & _ & HE' & Hendpoints & Hmessages).
  vm_compute in Hhashes. injection Hhashes as <-.
  exists E', db'. split; [done|]. rewrite Hendpoints, Hmessages, HE'.
  split_and!.
  - reflexivity.
  - vm_compute. reflexivity.
  - vm_compute. reflexivity.
  - vm_compute. reflexivity.
Defined.

(** A closed endpoint with two messages to process, a third that is already
    in its outbox, and one of another endpoint under a hash that the request
    names: the two named messages go to the outbox, the others stay, and the
    endpoint is processed with the proof of the request. *)
Lemma record_endpoint_process_ok_witness :
  let E := Sample.endpoint_E CLOSED "c0" in
  let message endpoint_id hash box :=
    {| m_sender := "s"; m_recipient := "r"; m_text := "t";
       m_message_hash := hash; m_endpoint_id := endpoint_id; m_box := box |} in
  let db :=
    set_messages (λ _, [message "E" "a" PROCESSBOX; message "E" "b" PROCESSBOX;
                        message "E" "c" ACCEPTED; message "F" "a" PROCESSBOX])
                 (Sample.sealed_by_alice "process E" E) in
  let data :=
    VDict (<["process_proof" := VStr "proof"]>
          (<["message_hashes" := VList [VDict (<["hash" := VStr "b"]> ∅);
                                        VDict (<["hash" := VStr "a"]> ∅)]]> ∅)) in
  ∃ E' db',
    @record_endpoint_process Sample.hashing E data db = (Ok E', db') ∧
    e_status E' = PROCESSED ∧ e_process_proof E' = VStr "proof" ∧
    e_outbox_hash E' = Some "sha256:ab" ∧
    endpoints db' !! "E" = Some E' ∧
    (λ m, (m_endpoint_id m, m_message_hash m, m_box m)) <$> messages db'
    = [("E", "a", OUTBOX); ("E", "b", OUTBOX); ("E", "c", ACCEPTED);
       ("F", "a", PROCESSBOX)].
Proof.
  intros E message db data.
  destruct (@record_endpoint_process Sample.hashing E data db)
    as [[E'|err] db'] eqn:Hrun; [|vm_compute in Hrun; discriminate Hrun].
  destruct (@record_endpoint_process_ok Sample.hashing E E' data db db' Hrun)
    as (hashes & process_proof & Hhashes & Hproof & _ & HE' & Hendpoints
        & Hmessages).
  vm_compute in Hhashes. injection Hhashes as <-.
  vm_compute in Hproof. injection Hproof as <-.
  exists E', db'. split; [done|]. rewrite Hendpoints, Hmessages, HE'.
  split_and!.
  - reflexivity.
  - reflexivity.
  - vm_compute. reflexivity.
  - vm_compute. reflexivity.
  - vm_compute. reflexivity.
Defined.

Lemma apply_transition_moves_forward_witness :
  let E := Sample.endpoint_E OPEN "c0" in
  let m := {| m_sender := "s"; m_recipient := "r"; m_text := "t";
              m_message_hash := "a"; m_endpoint_id := "E"; m_box := INBOX |} in
  let db := set_messages (λ _, [m]) (Sample.sealed_by_alice "close E" E) in
  let data :=
    VDict (<["status" := VStr "CLOSED"]>
          (<["message_hashes" := VList [VDict (<["hash" := VStr "a"]> ∅)]]> ∅)) in
  Forall2 moved_forward (messages db)
    (messages (@apply_transition Sample.hashing E data (VStr "c1") db).2).
Proof.
  intros E m db data.
  apply (@apply_transition_moves_forward Sample.hashing E data (VStr "c1") db
           _ (@apply_transition Sample.hashing E data (VStr "c1") db).1).
  by destruct (apply_transition E data (VStr "c1") db).
Defined.

Lemma partial_update_records_consensus_witness :
  let E := Sample.endpoint_E OPEN "c0" in
  let db := Sample.sealed_by_alice "close E" E in
  ∃ E' db', @EndpointView_partial_update_logic Sample.codec Sample.hashing
              (Sample.update_request "CLOSED" "c0") E db = (Ok E', db') ∧
            get_last_consensus_id E' = Some "c1".
Proof.
  intros E db.
  destruct (@EndpointView_partial_update_logic Sample.codec Sample.hashing
              (Sample.update_request "CLOSED" "c0") E db) as [[E'|err] db']
    eqn:Hrun; [|vm_compute in Hrun; discriminate Hrun].
  exists E', db'. split; [done|].
  destruct (@partial_update_records_consensus Sample.codec Sample.hashing
              (Sample.update_request "CLOSED" "c0") E E' db db' Hrun)
    as (id & body & peer & Hreq & Hlast & _).
  vm_compute in Hreq. injection Hreq as <- _. exact Hlast.
Defined.

Lemma contribute_sound_witness :
  n_status Sample.open_N = NEG_OPEN.
Proof.
  eapply (proj1 (@contribute_sound Sample.codec Sample.hashing Sample.verifier
                   Sample.midnight Sample.open_N
                   (Sample.contribution_request "alice" "close E")
                   (Some "alice")
                   (Sample.negotiating [Sample.contribution_of "alice" "draft"])
                   _ _ _)).
  Unshelve. 3: { vm_compute. reflexivity. }
Defined.

Lemma check_close_negotiation_waits_witness :
  @check_close_negotiation Sample.codec Sample.hashing Sample.midnight
    Sample.open_N
    (Sample.negotiating [Sample.contribution_of "alice" "close E";
                         Sample.contribution_of "bob" "process E"])
  = (Ok (),
     Sample.negotiating [Sample.contribution_of "alice" "close E";
                         Sample.contribution_of "bob" "process E"]).
Proof.
  apply (proj1 (@check_close_negotiation_waits Sample.codec Sample.hashing
                  Sample.midnight Sample.open_N
                  (Sample.negotiating
                     [Sample.contribution_of "alice" "close E";
                      Sample.contribution_of "bob" "process E"]))).
  exists (Sample.contribution_of "alice" "close E"),
         (Sample.contribution_of "bob" "process E").
  split_and!.
  - apply list_elem_of_filter. split; [done|]. by left.
  - apply list_elem_of_filter. split; [done|]. right. by left.
  - discriminate.
Defined.

Lemma sealed_consensus_retrieved_witness :
  let db := Sample.negotiating [Sample.contribution_of "alice" "close E"] in
  ∃ N' db' id,
    @_close_negotiation Sample.codec Sample.hashing Sample.midnight
      Sample.open_N [Sample.contribution_of "alice" "close E"] db
    = (Ok N', db') ∧
    (@retrieve_consensus (VStr id) db').1
    = Ok {| consensus_text := Some "close E";
            consensus_signings := <["alice" := "signed-by-alice"]> ∅ |}.
Proof.
  intros db.
  destruct (@_close_negotiation Sample.codec Sample.hashing Sample.midnight
              Sample.open_N [Sample.contribution_of "alice" "close E"] db)
    as [[N'|err] db'] eqn:Hrun; [|vm_compute in Hrun; discriminate Hrun].
  destruct (@sealed_consensus_retrieved Sample.codec Sample.hashing
              Sample.midnight Sample.open_N N'
              [Sample.contribution_of "alice" "close E"] db db' Hrun)
    as (id & _ & _ & Hretrieved).
  - intros k m Hm Hk. cbn [db Sample.negotiating negotiations] in Hm.
    apply lookup_singleton_Some in Hm as [<- _]. by destruct Hk.
  - intros s Hs. by apply elem_of_nil in Hs.
  - exists N', db', id. split; [done|]. rewrite Hretrieved. cbn [fst].
    vm_compute in Hrun. injection Hrun as <- _. reflexivity.
Defined.


Lemma message_admission_raises_unchanged_witness :
  let E := Sample.endpoint_E CLOSED "c0" in
  let db := Sample.sealed_by_alice "close E" E in
  let request :=
    {| r_user_peer_id := "s"; r_auth := None;
       r_data := VDict
         (<["info" := VDict (<["operation" := VStr "create"]>
                            (<["resource" := VStr "message"]> ∅))]>
         (<["data" := VDict (<["endpoint_id" := VStr "E"]>
                            (<["box" := VStr "INBOX"]>
                            (<["text" := VStr "t"]>
                            (<["sender" := VStr "s"]>
                            (<["recipient" := VStr "r"]> ∅)))))]> ∅)) |} in
  (@MessageView_creation_logic Sample.hashing request db).2 = db.
Proof.
  intros E db request.
  apply (@message_admission_raises_unchanged Sample.hashing request db _
           (PermissionDenied "Cycle E is not open")).
  vm_compute. reflexivity.
Defined.

Lemma contribution_view_negotiation_witness :
  let request :=
    {| r_user_peer_id := "alice"; r_auth := Some "alice";
       r_data := VDict
         (<["info" := VDict (<["operation" := VStr "create"]>
                            (<["resource" := VStr "contribution"]> ∅))]>
         (<["data" := VDict (<["negotiation" := VStr "/negotiations/M/"]> ∅)]>
          ∅)) |} in
  let db := Sample.negotiating [] in
  @ContributionView_creation_logic Sample.codec Sample.hashing Sample.verifier
    Sample.midnight request db = (Raise Http404, db).
Proof.
  intros request db.
  apply (proj2 (@contribution_view_negotiation Sample.codec Sample.hashing
                  Sample.verifier Sample.midnight request db)
           (VDict (<["negotiation" := VStr "/negotiations/M/"]> ∅))
           (VDict (<["operation" := VStr "create"]>
                  (<["resource" := VStr "contribution"]> ∅)))
           "/negotiations/M/"); reflexivity.
Defined.

Lemma peer_creation_sound_witness :
  let db := Sample.sealed_by_alice "create peer" (Sample.endpoint_E OPEN "c0") in
  ∃ peer db',
    @PeerView_creation_logic SampleStore.codec SampleStore.store
      (SampleStore.creation_request "peer" SampleStore.peer_data) db
    = (Ok peer, db') ∧
    check_permission "Q" ["alice"] (<["alice" := "signed-by-alice"]> ∅) "alice"
    = Ok ().
Proof.
  intros db.
  destruct (@PeerView_creation_logic SampleStore.codec SampleStore.store
              (SampleStore.creation_request "peer" SampleStore.peer_data) db)
    as [[peer|err] db'] eqn:Hrun; [|vm_compute in Hrun; discriminate Hrun].
  exists peer, db'. split; [done|].
  destruct (@peer_creation_sound SampleStore.codec Sample.hashing
              SampleStore.store _ db db' peer Hrun)
    as (data & id & body & peer_id & owners & owner_values & signings
        & Hdata & _ & _ & _ & _ & _ & _ & _).
  reflexivity.
Defined.

Lemma endpoint_creation_sound_witness :
  let db :=
    Sample.sealed_by_alice "create endpoint" (Sample.endpoint_E OPEN "c0") in
  ∃ endpoint db',
    @EndpointView_creation_logic SampleStore.codec SampleStore.store
      (SampleStore.creation_request "endpoint" SampleStore.endpoint_data) db
    = (Ok endpoint, db') ∧
    get_last_consensus_id endpoint = Some "c1".
Proof.
  intros db.
  destruct (@EndpointView_creation_logic SampleStore.codec SampleStore.store
              (SampleStore.creation_request "endpoint" SampleStore.endpoint_data)
              db)
    as [[endpoint|err] db'] eqn:Hrun; [|vm_compute in Hrun; discriminate Hrun].
  exists endpoint, db'. split; [done|].
  destruct (@endpoint_creation_sound SampleStore.codec Sample.hashing
              SampleStore.store _ db db' endpoint Hrun)
    as (data & id & body & peer_id & peer & signings
        & _ & _ & _ & _ & _ & Hreq & _ & _ & Hlast & _).
  vm_compute in Hreq. injection Hreq as <- _. exact Hlast.
Defined.

(** ** How admission and closing compose *)

#[local] Instance same_cycle_refl : Reflexive same_cycle.
Proof. by intros db. Qed.

#[local] Instance same_cycle_trans : Transitive same_cycle.
Proof. intros db1 db2 db3 [? ?] [? ?]. split; congruence. Qed.

Lemma message_admission_same_cycle `{Hashing} (request : Request) :
  preserves same_cycle (MessageView_creation_logic request).
Proof.
  unfold MessageView_creation_logic, MessageView_perform_create.
  repeat first
    [ apply preserves_bind; [apply _| |intros ?]
    | apply preserves_if
    | apply preserves_lift; apply _
    | apply preserves_raise; apply _
    | apply preserves_ret; apply _
    | apply preserves_get_instance; apply _
    | apply (read_only_preserves _ _ (check_is_owner_read_only _ _))
    | by intros ? ? ? [= _ <-] ].
Qed.

(** Admission reads the endpoints and the owners, and nothing else. *)
Lemma message_admission_reads `{Hashing} (request : Request) (db1 db2 : DB) :
  endpoints db1 = endpoints db2 → owners db1 = owners db2 →
  (MessageView_creation_logic request db1).1
  = (MessageView_creation_logic request db2).1.
Proof.
  intros Hendpoints Howners.
  unfold MessageView_creation_logic, MessageView_perform_create, mbind, M_bind,
    lift, get_instance, check_is_owner, query, raise, write, mret, M_ret.
  rewrite Hendpoints.
  repeat (case_match; simplify_eq/=; rewrite ?Howners; try done).
Qed.

(** X19. Admission does not look for duplicates: a request that has been
    admitted is admitted again on the database it left, and adds a second
    row with the same content and the same hash. *)
Theorem message_admitted_twice `{Hashing} (request : Request) (db db' : DB)
    (message : Message) :
  MessageView_creation_logic request db = (Ok message, db') →
  ∃ db'', MessageView_creation_logic request db' = (Ok message, db'') ∧
          messages db'' = messages db ++ [message; message].
Proof.
  intros Hrun.
  pose proof (message_admission_same_cycle request _ _ _ Hrun) as [He Ho].
  pose proof (message_admission_reads request db' db He Ho) as Hsame.
  rewrite Hrun in Hsame. cbn [fst] in Hsame.
  destruct (MessageView_creation_logic request db') as [r db''] eqn:Hagain.
  cbn [fst] in Hsame. subst r. exists db''. split; [done|].
  assert (Hadds : ∀ d d', MessageView_creation_logic request d = (Ok message, d')
                          → messages d' = messages d ++ [message]).
  { clear. intros d d'.
    unfold MessageView_creation_logic, MessageView_perform_create, mbind,
      M_bind, lift, get_instance, check_is_owner, query, raise, write, mret,
      M_ret.
    repeat (case_match; simplify_eq/=; try done);
      intros; simplify_eq/=; done. }
  rewrite (Hadds _ _ Hagain), (Hadds _ _ Hrun), <- app_assoc. done.
Qed.

(** X20. A closed cycle takes no more inbox messages: on the database
    that a successful [close_endpoint] leaves, a request to post to [INBOX]
    of that endpoint is refused with [PermissionDenied], and nothing is
    written. *)
Theorem inbox_refused_after_close `{Hashing} (endpoint endpoint' : Endpoint)
    (data : value) (db db' : DB) (request : Request)
    (message info : gmap string value) :
  close_endpoint endpoint data db = (Ok endpoint', db') →
  r_data request = VDict (<["data" := VDict message]>
                         (<["info" := VDict info]> ∅)) →
  info !! "operation" = Some (VStr "create") →
  info !! "resource" = Some (VStr "message") →
  message !! "endpoint_id" = Some (VStr (e_endpoint_id endpoint)) →
  message !! "box" = Some (VStr (Box_name INBOX)) →
  MessageView_creation_logic request db'
  = (Raise (PermissionDenied
              ("Cycle " +:+ e_endpoint_id endpoint +:+ " is not open")), db').
Proof.
  intros Hclosed Hrequest Hop Hres Hid Hbox.
  apply close_endpoint_written in Hclosed as (hashes & -> & Hstored & _).
  unfold MessageView_creation_logic, mbind, M_bind, lift.
  rewrite Hrequest. cbn [dict_get].
  rewrite lookup_insert_eq. cbn [default from_option id].
  rewrite lookup_insert_ne, lookup_insert_eq by done.
  cbn [default from_option id]. unfold validate_operation. cbn [dict_get].
  rewrite Hop, Hres. cbn [default from_option id mbind result_bind].
  replace (eq_str (VStr "create") "create") with true by done.
  replace (eq_str (VStr "message") "message") with true by done.
  cbn [negb dict_get]. rewrite Hid, Hbox. cbn [default from_option id].
  unfold get_instance. rewrite Hstored, lookup_insert_eq.
  replace (eq_str (VStr (Box_name INBOX)) (Box_name INBOX)) with true by done.
  unfold check_cycle_is_open. done.
Qed.

Lemma message_admitted_twice_witness :
  let E := Sample.endpoint_E OPEN "c0" in
  let db := Sample.sealed_by_alice "close E" E in
  let request :=
    {| r_user_peer_id := "s"; r_auth := None;
       r_data := VDict
         (<["info" := VDict (<["operation" := VStr "create"]>
                            (<["resource" := VStr "message"]> ∅))]>
         (<["data" := VDict (<["endpoint_id" := VStr "E"]>
                            (<["box" := VStr "INBOX"]>
                            (<["text" := VStr "t"]>
                            (<["sender" := VStr "s"]>
                            (<["recipient" := VStr "r"]> ∅)))))]> ∅)) |} in
  ∃ m db' db'',
    @MessageView_creation_logic Sample.hashing request db = (Ok m, db') ∧
    @MessageView_creation_logic Sample.hashing request db' = (Ok m, db'') ∧
    messages db'' = messages db ++ [m; m].
Proof.
  intros E db request.
  destruct (@MessageView_creation_logic Sample.hashing request db)
    as [[m|err] db'] eqn:Hrun; [|vm_compute in Hrun; discriminate Hrun].
  destruct (@message_admitted_twice Sample.hashing request db db' m Hrun)
    as (db'' & Hagain & Hrows).
  by exists m, db', db''.
Defined.

Lemma inbox_refused_after_close_witness :
  let E := Sample.endpoint_E OPEN "c0" in
  let db := Sample.sealed_by_alice "close E" E in
  let message : gmap string value :=
    <["endpoint_id" := VStr "E"]>
    (<["box" := VStr "INBOX"]>
    (<["text" := VStr "t"]>
    (<["sender" := VStr "s"]>
    (<["recipient" := VStr "r"]> ∅)))) in
  let info : gmap string value :=
    <["operation" := VStr "create"]> (<["resource" := VStr "message"]> ∅) in
  let request :=
    {| r_user_peer_id := "s"; r_auth := None;
       r_data := VDict (<["data" := VDict message]>
                       (<["info" := VDict info]> ∅)) |} in
  let db' := (@close_endpoint Sample.hashing E (VDict ∅) db).2 in
  @MessageView_creation_logic Sample.hashing request db'
  = (Raise (PermissionDenied "Cycle E is not open"), db').
Proof.
  intros E db message info request db'.
  apply (@inbox_refused_after_close Sample.hashing E
           (closed_with (@compute_messages_hash Sample.hashing []) E)
           (VDict ∅) db db' request message info).
  - vm_compute. reflexivity.
  - reflexivity.
  - reflexivity.
  - reflexivity.
  - reflexivity.
  - reflexivity.
Defined.

Lemma require_by_consensus_structural_witness :
  @require_by_consensus Sample.codec
    (VDict (<["data" := VDict (<["status" := VStr "CLOSED"]> ∅)]>
           (<["by_consensus" :=
                VDict (<["consensus_id" := VStr "c1"]>
                      (<["consensus_type" := VStr "structural"]> ∅))]> ∅)))
  = Ok (VStr "c1", "status=CLOSED").
Proof.
  rewrite (@require_by_consensus_structural Sample.codec
             (<["data" := VDict (<["status" := VStr "CLOSED"]> ∅)]>
              (<["by_consensus" :=
                   VDict (<["consensus_id" := VStr "c1"]>
                         (<["consensus_type" := VStr "structural"]> ∅))]> ∅))
             (<["consensus_id" := VStr "c1"]>
                (<["consensus_type" := VStr "structural"]> ∅))
             (VStr "c1")).
  - vm_compute. reflexivity.
  - reflexivity.
  - reflexivity.
  - discriminate.
  - reflexivity.
Defined.

Lemma reachable_latest_unique_witness :
  latest_unique
    (@contribute_to_negotiation Sample.codec Sample.hashing Sample.verifier
       Sample.midnight Sample.open_N
       (Sample.contribution_request "alice" "draft") (Some "alice")
       empty_db).2.
Proof.
  apply (@reachable_latest_unique Sample.codec Sample.hashing Sample.verifier).
  apply contributed_more, contributed_nothing.
Defined.
